(** * CineMatch AI simulator: a model of [src/index.tsx]

    The [Simulator] component keeps seven pieces of React state and starts
    three kinds of asynchronous calls (text analysis, one image per shot,
    one video).  The browser event loop is single threaded: a user event or
    the settling of an awaited promise runs a stretch of synchronous code to
    its next [await], and that code only queues state updates ([setX]
    calls), writes to the console, raises an alert or starts further calls.

    The model follows that shape.  A [State] holds the React state, the
    outputs produced so far and the list of suspended continuations.  Each
    handler is a function returning the list of [Effect]s it performs, in
    program order; [run] applies them one after the other, which is how
    React processes its update queue.

    The [GoogleGenAI] constructor of line 98 throws when no API key is
    set; it runs after the first two state updates of processScript and
    outside its try block (event [ClickAnalyzeNoKey]).  Once it has
    succeeded for a click, the constructors of lines 192 and 241, called
    with the same key later in the same run, are taken to succeed.

    A [string] is read as a sequence of UTF-16 code units, one element per
    unit, so it holds the JavaScript strings whose code units are below
    256; [String.substring] then cuts where JavaScript's [substring] does.
    Elapsed time is not measured, a timer is the delay it was set with. *)

From stdpp Require Import base option list strings.

Open Scope string_scope.
Open Scope list_scope.

(** ** Types (index.tsx, lines 5-22) *)

Inductive View := input | processing | results.

(** [imageUrl?] and [isLoadingImage?] are optional properties: [None] is
    JavaScript's [undefined]. *)
Record Shot := mkShot {
  sceneHeader : string;
  action : string;
  cameraAngle : string;
  visualDescription : string;
  imageUrl : option string;
  isLoadingImage : option bool
}.

(** A JSON number that is carried around and displayed, never computed on. *)
Definition number := Z.

Record Casting := mkCasting {
  name : string;
  match_ : number;
  image : string
}.

Record AnalysisResult := mkAnalysis {
  score : option string;
  genre : option string;
  audience : option string;
  strengths : option (list string);
  weaknesses : option (list string);
  casting : list Casting
}.

(** ** The parsed text response (index.tsx, lines 122-160)

    [data] is what [JSON.parse] returns.  The response schema names the
    properties below and marks only the four shot properties as required,
    so every other property may be missing: [None] is a missing property.
    Items of [shots] carry the four schema properties and nothing else. *)

Record JsonCasting := mkJsonCasting {
  jc_name : string;
  jc_match : number
}.

Record JsonAnalysis := mkJsonAnalysis {
  ja_score : option string;
  ja_genre : option string;
  ja_audience : option string;
  ja_strengths : option (list string);
  ja_weaknesses : option (list string);
  ja_casting : option (list JsonCasting)
}.

Record JsonShot := mkJsonShot {
  js_sceneHeader : string;
  js_action : string;
  js_cameraAngle : string;
  js_visualDescription : string
}.

Record Data := mkData {
  d_analysis : option JsonAnalysis;
  d_shots : option (list JsonShot)
}.

(** The object [JSON.parse] builds for a shot: neither optional property
    is present. *)
Definition shot_of_json (j : JsonShot) : Shot :=
  mkShot (js_sceneHeader j) (js_action j) (js_cameraAngle j)
         (js_visualDescription j) None None.

(** [JSON.parse(textResponse.text || "{}")]: the text is not JSON (a
    [SyntaxError] is thrown, also the outcome when it parses to [null],
    since [data.analysis] then throws before any state is set), or it is
    an object.  A missing or empty text parses as [{}], which is
    [Parsed (mkData None None)]. *)
Inductive ParsedText :=
| Unparsable
| Parsed (data : Data).

(** ** Constants (index.tsx, lines 24-44) *)

Definition DEFAULT_SCRIPT : string :=
"INT. COFFEE SHOP - DAY

A rain-streaked window. Soft jazz plays.

JAMIE (30s, disheveled) stares at a cold cup of coffee.

He looks up as the door chime rings.

A WOMAN in a red trench coat enters, shaking off an umbrella.
She spots Jamie. Freezes.

Jamie stands up, knocking over his chair. The sound cuts through the jazz.".

Definition ACTOR_IMAGES : list string := [
  "https://images.unsplash.com/photo-1500648767791-00dcc994a43e?w=100&h=100&fit=crop";
  "https://images.unsplash.com/photo-1494790108377-be9c29b29330?w=100&h=100&fit=crop";
  "https://images.unsplash.com/photo-1507003211169-0a1dd7228f2d?w=100&h=100&fit=crop";
  "https://images.unsplash.com/photo-1438761681033-6461ffad8d80?w=100&h=100&fit=crop"
].

(** ** Replies of the remote calls *)

(** A part of an image response; [inlineData] is [(mimeType, data)]. *)
Record Part := mkPart {
  inlineData : option (string * string)
}.

(** The operation object of the video API.  [op_done] is the optional
    [done] flag, [op_uri] is
    [operation.response?.generatedVideos?.[0]?.video?.uri]. *)
Record Operation := mkOperation {
  op_done : option bool;
  op_uri : option string
}.

Inductive Reply :=
| Rejected                                    (* the awaited promise rejects: the await throws *)
| TextReply (text : ParsedText)               (* ai.models.generateContent, text model *)
| ImageReply (parts : option (list Part))     (* response.candidates?.[0]?.content?.parts *)
| KeySelected (selected : bool)               (* window.aistudio.hasSelectedApiKey() *)
| OperationReply (operation : Operation)      (* generateVideos / getVideosOperation *)
| TimerFired                                  (* the setTimeout callback runs *)
| FetchReply                                  (* fetch(uri) resolves *)
| BlobReply (objectUrl : string).             (* blob() resolves; URL.createObjectURL *)

(** ** Suspended continuations

    Where each async function waits.  The video function has six awaits;
    the timer stage records the delay handed to [setTimeout]. *)

Inductive VideoStage :=
| AwaitKeyCheck (scriptText : string)
| AwaitGenerate (prompt : string)
| AwaitTimer (delay : Z) (operation : Operation)
| AwaitPoll (operation : Operation)
| AwaitFetch (uri : string)
| AwaitBlob.

Inductive Pending :=
| AwaitText (script : string)                  (* processScript, line 102 *)
| AwaitImage (index : nat) (prompt : string)   (* generateShotImage, line 201 *)
| AwaitVideo (stage : VideoStage).             (* generateVideo, lines 247-272 *)

Inductive Output :=
| ConsoleError (msg : string)
| Alert (msg : string).

(** ** State *)

Record State := mkState {
  (* React state of Simulator, lines 85-91 *)
  view : View;
  script : string;
  shots : list Shot;
  analysis : option AnalysisResult;
  videoUrl : option string;
  isVideoLoading : bool;
  processingStep : nat;
  (* the page around it *)
  aistudio : bool;           (* window.aistudio.hasSelectedApiKey is a function *)
  outputs : list Output;     (* console.error and alert calls, oldest first *)
  pending : list Pending     (* calls in flight *)
}.

Definition init (aistudio : bool) : State :=
  mkState input DEFAULT_SCRIPT [] None None false 0 aistudio [] [].

(** ** JavaScript truthiness, as the conditions of the source use it *)

Definition truthy_string (o : option string) : bool :=
  match o with
  | Some s => negb (String.eqb s "")
  | None => false
  end.

Definition truthy_bool (o : option bool) : bool :=
  match o with
  | Some b => b
  | None => false
  end.

(** ** The three [setShots] updaters of generateShotImage

    [const copy = [...prev]; if (copy[index]) ...]: an element of the array
    is an object, hence truthy, so the test fails exactly when [index] is
    past the end.  The assignment writes into the object both arrays share;
    the old array is never read again, so the update is the new array with
    the element at [index] changed. *)

Definition set_isLoadingImage (b : bool) (sh : Shot) : Shot :=
  mkShot (sceneHeader sh) (action sh) (cameraAngle sh) (visualDescription sh)
         (imageUrl sh) (Some b).

Definition set_imageUrl (u : string) (sh : Shot) : Shot :=
  mkShot (sceneHeader sh) (action sh) (cameraAngle sh) (visualDescription sh)
         (Some u) (isLoadingImage sh).

(* lines 194-198 *)
Definition mark_loading (index : nat) (prev : list Shot) : list Shot :=
  alter (set_isLoadingImage true) index prev.

(* lines 220-227 *)
Definition store_image (index : nat) (imageUrl : string) (prev : list Shot) : list Shot :=
  alter (λ sh, set_isLoadingImage false (set_imageUrl imageUrl sh)) index prev.

(* lines 231-235 *)
Definition clear_loading (index : nat) (prev : list Shot) : list Shot :=
  alter (set_isLoadingImage false) index prev.

(** ** Effects of a stretch of synchronous code *)

Inductive Effect :=
| SetView (v : View)
| SetScript (text : string)
| SetShots (l : list Shot)
| UpdateShots (updater : list Shot → list Shot)
| SetAnalysis (a : AnalysisResult)
| SetVideoUrl (u : string)
| SetIsVideoLoading (b : bool)
| SetProcessingStep (n : nat)
| Emit (o : Output)
| Suspend (p : Pending).

Definition apply (s : State) (e : Effect) : State :=
  match e with
  | SetView v =>
      mkState v (script s) (shots s) (analysis s) (videoUrl s) (isVideoLoading s)
              (processingStep s) (aistudio s) (outputs s) (pending s)
  | SetScript t =>
      mkState (view s) t (shots s) (analysis s) (videoUrl s) (isVideoLoading s)
              (processingStep s) (aistudio s) (outputs s) (pending s)
  | SetShots l =>
      mkState (view s) (script s) l (analysis s) (videoUrl s) (isVideoLoading s)
              (processingStep s) (aistudio s) (outputs s) (pending s)
  | UpdateShots f =>
      mkState (view s) (script s) (f (shots s)) (analysis s) (videoUrl s) (isVideoLoading s)
              (processingStep s) (aistudio s) (outputs s) (pending s)
  | SetAnalysis a =>
      mkState (view s) (script s) (shots s) (Some a) (videoUrl s) (isVideoLoading s)
              (processingStep s) (aistudio s) (outputs s) (pending s)
  | SetVideoUrl u =>
      mkState (view s) (script s) (shots s) (analysis s) (Some u) (isVideoLoading s)
              (processingStep s) (aistudio s) (outputs s) (pending s)
  | SetIsVideoLoading b =>
      mkState (view s) (script s) (shots s) (analysis s) (videoUrl s) b
              (processingStep s) (aistudio s) (outputs s) (pending s)
  | SetProcessingStep n =>
      mkState (view s) (script s) (shots s) (analysis s) (videoUrl s) (isVideoLoading s)
              n (aistudio s) (outputs s) (pending s)
  | Emit o =>
      mkState (view s) (script s) (shots s) (analysis s) (videoUrl s) (isVideoLoading s)
              (processingStep s) (aistudio s) (outputs s ++ [o]) (pending s)
  | Suspend p =>
      mkState (view s) (script s) (shots s) (analysis s) (videoUrl s) (isVideoLoading s)
              (processingStep s) (aistudio s) (outputs s) (pending s ++ [p])
  end.

Definition run (effs : list Effect) (s : State) : State := foldl apply s effs.

(** The continuation at position [k] leaves the list when its promise
    settles. *)
Definition settle (k : nat) (s : State) : State :=
  mkState (view s) (script s) (shots s) (analysis s) (videoUrl s) (isVideoLoading s)
          (processingStep s) (aistudio s) (outputs s) (delete k (pending s)).

(** ** processScript (index.tsx, lines 93-188) *)

(* line 165: [{ ...c, image: ACTOR_IMAGES[i % ACTOR_IMAGES.length] }] *)
Definition with_image (i : nat) (c : JsonCasting) : Casting :=
  mkCasting (jc_name c) (jc_match c)
            (default "" (ACTOR_IMAGES !! (i `mod` length ACTOR_IMAGES))).

(* lines 163-166 *)
Definition map_analysis (a : JsonAnalysis) (cs : list JsonCasting) : AnalysisResult :=
  mkAnalysis (ja_score a) (ja_genre a) (ja_audience a) (ja_strengths a)
             (ja_weaknesses a) (imap with_image cs).

(* lines 183-187 *)
Definition processScript_catch : list Effect :=
  [Emit (ConsoleError "Error processing script:");
   Emit (Alert "Error processing script. Please try again.");
   SetView input].

(* line 205 *)
Definition image_prompt (shot : Shot) : string :=
  "Cinematic storyboard sketch, loose charcoal style. " +:+ visualDescription shot
  +:+ ". Angle: " +:+ cameraAngle shot.

(* generateShotImage up to its await, lines 190-201 *)
Definition generateShotImage (shot : Shot) (index : nat) : list Effect :=
  [UpdateShots (mark_loading index);
   Suspend (AwaitImage index (image_prompt shot))].

(* line 254; [substring(0, 300)] counts UTF-16 code units, which the
   elements of a [string] stand for *)
Definition video_prompt (scriptText : string) : string :=
  "Cinematic movie scene based on this script: " +:+ String.substring 0 300 scriptText +:+ "...".

(* generateVideo up to its first await, lines 239-252 *)
Definition generateVideo (has_aistudio : bool) (scriptText : string) : list Effect :=
  [SetIsVideoLoading true;
   Suspend (AwaitVideo (if has_aistudio
                        then AwaitKeyCheck scriptText
                        else AwaitGenerate (video_prompt scriptText)))].

(* lines 94-102: the click handler up to the awaited text call, whose
   prompt embeds the script of the render the handler closed over *)
Definition processScript (script : string) : list Effect :=
  [SetView processing; SetProcessingStep 1; Suspend (AwaitText script)].

(* lines 94-98 when [new GoogleGenAI] throws: the two updates are queued,
   the exception leaves the handler (it is outside the try block) and no
   call is started *)
Definition processScript_no_key : list Effect :=
  [SetView processing; SetProcessingStep 1].

(* lines 160-187: the rest of the try block, and the catch *)
Definition processScript_resume (has_aistudio : bool) (script : string) (r : Reply)
  : option (list Effect) :=
  match r with
  | Rejected => Some processScript_catch
  | TextReply Unparsable => Some processScript_catch
  | TextReply (Parsed data) =>
      match d_analysis data with
      | None => Some processScript_catch            (* data.analysis.casting throws *)
      | Some a =>
          match ja_casting a with
          | None => Some processScript_catch        (* undefined.map throws *)
          | Some cs =>
              Some ([SetAnalysis (map_analysis a cs);
                     SetShots (shot_of_json <$> default [] (d_shots data));
                     SetProcessingStep 2;
                     SetView results]
                    ++ match d_shots data with
                       | None => processScript_catch   (* data.shots.forEach throws *)
                       | Some l =>
                           concat (imap (λ index j, generateShotImage (shot_of_json j) index) l)
                           ++ generateVideo has_aistudio script
                       end)
          end
      end
  | _ => None
  end.

(** ** generateShotImage after its await (lines 210-236) *)

Fixpoint first_inline (parts : list Part) : string :=
  match parts with
  | [] => ""
  | part :: rest =>
      match inlineData part with
      | Some (mimeType, data) => "data:" +:+ mimeType +:+ ";base64," +:+ data
      | None => first_inline rest
      end
  end.

Definition extract_image (parts : option (list Part)) : string :=
  match parts with
  | Some ps => first_inline ps
  | None => ""
  end.

Definition generateShotImage_resume (index : nat) (r : Reply) : option (list Effect) :=
  match r with
  | ImageReply parts => Some [UpdateShots (store_image index (extract_image parts))]
  | Rejected =>
      Some [Emit (ConsoleError "Image gen error"); UpdateShots (clear_loading index)]
  | _ => None
  end.

(** ** generateVideo after its awaits (lines 252-281) *)

Definition generateVideo_catch : list Effect :=
  [Emit (ConsoleError "Video generation failed")].

Definition generateVideo_finally : list Effect :=
  [SetIsVideoLoading false].

(* The loop test of line 263 with [operation] in hand, then lines 268-275
   once the loop is left. *)
Definition poll (operation : Operation) : list Effect :=
  if truthy_bool (op_done operation)
  then match op_uri operation with
       | Some videoUri =>
           if String.eqb videoUri ""
           then generateVideo_finally
           else [Suspend (AwaitVideo (AwaitFetch videoUri))]
       | None => generateVideo_finally
       end
  else [Suspend (AwaitVideo (AwaitTimer 5000 operation))].

Definition generateVideo_resume (stage : VideoStage) (r : Reply) : option (list Effect) :=
  match stage, r with
  | AwaitTimer _ operation, TimerFired => Some [Suspend (AwaitVideo (AwaitPoll operation))]
  | AwaitTimer _ _, _ => None               (* the timer promise never rejects *)
  | _, Rejected => Some (generateVideo_catch ++ generateVideo_finally)
  | AwaitKeyCheck scriptText, KeySelected _ =>
      Some [Suspend (AwaitVideo (AwaitGenerate (video_prompt scriptText)))]
  | AwaitGenerate _, OperationReply operation => Some (poll operation)
  | AwaitPoll _, OperationReply operation => Some (poll operation)
  | AwaitFetch _, FetchReply => Some [Suspend (AwaitVideo AwaitBlob)]
  | AwaitBlob, BlobReply videoObjectUrl =>
      Some (SetVideoUrl videoObjectUrl :: generateVideo_finally)
  | _, _ => None
  end.

(** ** The event loop *)

Inductive Event :=
| ClickAnalyze                        (* the button of the input view, line 307 *)
| EditScript (text : string)          (* the textarea of the input view, line 302 *)
| ClickAnalyzeAnother                 (* the link of the results view, line 338 *)
| Settled (k : nat) (r : Reply)       (* the k-th call in flight settles *)
| ClickAnalyzeNoKey.                  (* the button, when line 98 throws *)

Definition resume (has_aistudio : bool) (p : Pending) (r : Reply) : option (list Effect) :=
  match p with
  | AwaitText script => processScript_resume has_aistudio script r
  | AwaitImage index _ => generateShotImage_resume index r
  | AwaitVideo stage => generateVideo_resume stage r
  end.

(** The state the handler starts from and the effects it performs; [None]
    when the event cannot happen in [s] (the control is not rendered, no
    such call is in flight, or the reply is of another call's kind). *)
Definition handler (s : State) (ev : Event) : option (State * list Effect) :=
  match ev with
  | ClickAnalyze =>
      match view s with
      | input => Some (s, processScript (script s))
      | _ => None
      end
  | EditScript text =>
      match view s with
      | input => Some (s, [SetScript text])
      | _ => None
      end
  | ClickAnalyzeAnother =>
      match view s, analysis s with
      | results, Some _ => Some (s, [SetView input])
      | _, _ => None
      end
  | Settled k r =>
      p ← pending s !! k;
      effs ← resume (aistudio s) p r;
      Some (settle k s, effs)
  | ClickAnalyzeNoKey =>
      match view s with
      | input => Some (s, processScript_no_key)
      | _ => None
      end
  end.

Definition step (s : State) (ev : Event) : option State :=
  '(s1, effs) ← handler s ev;
  Some (run effs s1).

Fixpoint steps (s : State) (evs : list Event) : option State :=
  match evs with
  | [] => Some s
  | ev :: rest => s' ← step s ev; steps s' rest
  end.

Inductive reachable : State → Prop :=
| reachable_init has_aistudio : reachable (init has_aistudio)
| reachable_step s ev s' : reachable s → step s ev = Some s' → reachable s'.

(** States the component passes through inside a handler: after any
    prefix of the handler's effects. *)
Definition during (s' : State) : Prop :=
  ∃ s ev s1 effs n,
    reachable s ∧ handler s ev = Some (s1, effs) ∧ s' = run (take n effs) s1.

(** ** What the component renders (index.tsx, lines 284-433) *)

Inductive VideoSlot :=
| VideoElement (src : string)
| VideoPlaceholder (caption : string).     (* the spinner and its caption *)

Inductive ShotFrame :=
| ShotImage (src : string)
| ShotPlaceholder (spinner : bool) (caption : string).

Inductive Screen :=
| InputView (script : string)
| ProcessingView (step : nat)
| ResultsView (a : AnalysisResult) (video : VideoSlot) (storyboard : list ShotFrame)
| Nothing.

(* lines 383-393 *)
Definition render_video (s : State) : VideoSlot :=
  if truthy_string (videoUrl s)
  then VideoElement (default "" (videoUrl s))
  else VideoPlaceholder (if isVideoLoading s
                         then "Generando video con Veo..."
                         else "Esperando inicio...").

(* lines 406-413 *)
Definition render_shot (shot : Shot) : ShotFrame :=
  if truthy_string (imageUrl shot)
  then ShotImage (default "" (imageUrl shot))
  else ShotPlaceholder (truthy_bool (isLoadingImage shot))
                       (if truthy_bool (isLoadingImage shot)
                        then "Generando imagen..."
                        else "Pendiente").

Definition render (s : State) : Screen :=
  match view s with
  | input => InputView (script s)
  | processing => ProcessingView (processingStep s)
  | results =>
      match analysis s with
      | Some a => ResultsView a (render_video s) (render_shot <$> shots s)
      | None => Nothing
      end
  end.

(** ** The four states of a shot, read off its two optional fields *)

Definition not_yet_requested (sh : Shot) : bool :=
  match isLoadingImage sh, imageUrl sh with
  | None, None => true
  | _, _ => false
  end.

Definition loading (sh : Shot) : bool :=
  match isLoadingImage sh with
  | Some true => negb (truthy_string (imageUrl sh))
  | _ => false
  end.

Definition loaded (sh : Shot) : bool :=
  match isLoadingImage sh with
  | Some false => truthy_string (imageUrl sh)
  | _ => false
  end.

Definition failed (sh : Shot) : bool :=
  match isLoadingImage sh with
  | Some false => negb (truthy_string (imageUrl sh))
  | _ => false
  end.

Definition states_holding (sh : Shot) : nat :=
  Nat.b2n (not_yet_requested sh) + Nat.b2n (loading sh)
  + Nat.b2n (loaded sh) + Nat.b2n (failed sh).

Definition exactly_one_state (sh : Shot) : Prop := states_holding sh = 1.

(** A shot as stored by processScript, before or after its image call
    was started. *)
Definition pristine (sh : Shot) : Prop :=
  imageUrl sh = None ∧ (isLoadingImage sh = None ∨ isLoadingImage sh = Some true).

(** Effects that keep every shot in one of the four states, whatever the
    array holds. *)
Definition keeps_states (e : Effect) : Prop :=
  match e with
  | SetShots l => Forall exactly_one_state l
  | UpdateShots f => ∀ l, Forall exactly_one_state l → Forall exactly_one_state (f l)
  | _ => True
  end.

(** Effects that keep freshly stored shots pristine. *)
Definition keeps_pristine (e : Effect) : Prop :=
  match e with
  | SetShots l => Forall pristine l
  | UpdateShots f => ∀ l, Forall pristine l → Forall pristine (f l)
  | _ => True
  end.

(** ** The effect lists of processScript, by case of the reply *)

Definition spawn_from (n : nat) (l : list JsonShot) : list Effect :=
  concat (imap (λ index j, generateShotImage (shot_of_json j) (n + index)) l).

Definition calls_from (n : nat) (l : list JsonShot) : list Pending :=
  imap (λ index j, AwaitImage (n + index) (image_prompt (shot_of_json j))) l.

Definition marks_from (n : nat) (l : list JsonShot) (prev : list Shot) : list Shot :=
  foldl (λ acc index, mark_loading index acc) prev (seq n (length l)).

(** The effects of a text reply that carries analysis, casting and shots,
    and the state they lead to. *)
Definition success_effects (has_aistudio : bool) (script : string)
    (a : JsonAnalysis) (cs : list JsonCasting) (l : list JsonShot) : list Effect :=
  [SetAnalysis (map_analysis a cs); SetShots (shot_of_json <$> l);
   SetProcessingStep 2; SetView results]
  ++ spawn_from 0 l ++ generateVideo has_aistudio script.

Definition first_video_stage (has_aistudio : bool) (script : string) : VideoStage :=
  if has_aistudio then AwaitKeyCheck script else AwaitGenerate (video_prompt script).

(** The effects when the reply has analysis and casting but no shots:
    the state is set as far as line 173, then [data.shots.forEach] throws. *)
Definition no_shots_effects (a : JsonAnalysis) (cs : list JsonCasting) : list Effect :=
  [SetAnalysis (map_analysis a cs); SetShots []; SetProcessingStep 2; SetView results]
  ++ processScript_catch.

(** How many of the calls in [ps] are image calls for index [i]. *)
Definition is_image_call (i : nat) (p : Pending) : bool :=
  match p with
  | AwaitImage index _ => Nat.eqb index i
  | _ => false
  end.

Definition image_calls (i : nat) (ps : list Pending) : nat :=
  length (List.filter (is_image_call i) ps).

(** The events of [ops]-many rounds of the polling loop for the call at
    position [k]: the timer fires, then the status check answers. *)
Fixpoint poll_rounds (k : nat) (ops : list Operation) : list Event :=
  match ops with
  | [] => []
  | op :: rest => Settled k TimerFired :: Settled k (OperationReply op) :: poll_rounds k rest
  end.

Definition not_done (op : Operation) : Prop := truthy_bool (op_done op) = false.

(** What a reply does to the video call: it waits again, at a stage whose
    timer (if it is one) runs 5000 ms, or it ends in one of three ways. *)
Inductive VideoOutcome (stage : VideoStage) (r : Reply) (effs : list Effect) : Prop :=
| video_waits stage' :
    effs = [Suspend (AwaitVideo stage')] →
    (∀ d op, stage' = AwaitTimer d op → d = 5000%Z) →
    VideoOutcome stage r effs
| video_throws :
    r = Rejected → (∀ d op, stage ≠ AwaitTimer d op) →
    effs = generateVideo_catch ++ generateVideo_finally →
    VideoOutcome stage r effs
| video_stored u :
    r = BlobReply u → stage = AwaitBlob →
    effs = SetVideoUrl u :: generateVideo_finally →
    VideoOutcome stage r effs
| video_absent op :
    r = OperationReply op →
    truthy_bool (op_done op) = true → truthy_string (op_uri op) = false →
    effs = generateVideo_finally →
    VideoOutcome stage r effs.

(** The stages at which the call waits for the status of the operation:
    the first request and every later check. *)
Definition awaits_status (stage : VideoStage) : bool :=
  match stage with
  | AwaitGenerate _ | AwaitPoll _ => true
  | _ => false
  end.

(** The stages inside the loop of lines 263-266. *)
Definition in_loop (p : Pending) : bool :=
  match p with
  | AwaitVideo (AwaitTimer _ _) | AwaitVideo (AwaitPoll _) => true
  | _ => false
  end.

Definition stays_in_loop (effs : list Effect) : bool :=
  existsb (λ e, match e with Suspend p => in_loop p | _ => false end) effs.

(** Every timer of the polling loop runs 5000 ms. *)
Definition timer_ok (p : Pending) : Prop :=
  ∀ d op, p = AwaitVideo (AwaitTimer d op) → d = 5000%Z.

(** No text-analysis or video call is in flight and no video is stored:
    only image calls can still settle. *)
Definition awaits_image (p : Pending) : bool :=
  match p with
  | AwaitImage _ _ => true
  | _ => false
  end.

Definition only_images (ps : list Pending) : Prop :=
  Forall (λ p, awaits_image p = true) ps.

Definition quiet (s : State) : Prop :=
  videoUrl s = None ∧ isVideoLoading s = false ∧ only_images (pending s).

(** ** Sample inputs *)

Definition sample_analysis : JsonAnalysis :=
  mkJsonAnalysis (Some "7") (Some "Drama") (Some "Adults") None None
    (Some [mkJsonCasting "Ana" 90%Z; mkJsonCasting "Ben" 80%Z; mkJsonCasting "Cleo" 70%Z;
           mkJsonCasting "Dov" 60%Z; mkJsonCasting "Eli" 50%Z]).

Definition sample_castings : list JsonCasting :=
  default [] (ja_casting sample_analysis).

Definition awaiting_text : State :=
  mkState processing DEFAULT_SCRIPT [] None None false 1 false [] [AwaitText DEFAULT_SCRIPT].

Definition sample_shots : list JsonShot :=
  [mkJsonShot "INT. COFFEE SHOP - DAY" "Jamie stares at his coffee" "Close-up"
              "a cold cup of coffee by a rain-streaked window";
   mkJsonShot "INT. COFFEE SHOP - DAY" "A woman enters" "Wide shot"
              "a woman in a red trench coat at the door"].

Definition sample_data : Data := mkData (Some sample_analysis) (Some sample_shots).

(** The state once the sample reply has arrived: two image calls and the
    video call are in flight. *)
Definition showing_results : State :=
  mkState results DEFAULT_SCRIPT
          ((set_isLoadingImage true ∘ shot_of_json) <$> sample_shots)
          (Some (map_analysis sample_analysis sample_castings))
          None true 2 false []
          (calls_from 0 sample_shots ++ [AwaitVideo (AwaitGenerate (video_prompt DEFAULT_SCRIPT))]).

Definition still_running : Operation := mkOperation None None.

Definition finished_without_video : Operation := mkOperation (Some true) None.

Definition finished_with_video : Operation :=
  mkOperation (Some true) (Some "https://example.com/video?alt=media").

(** In [showing_results] the video call sits at position 2. *)
Definition video_waiting : State :=
  mkState results DEFAULT_SCRIPT
          ((set_isLoadingImage true ∘ shot_of_json) <$> sample_shots)
          (Some (map_analysis sample_analysis sample_castings))
          None true 2 false []
          (calls_from 0 sample_shots ++ [AwaitVideo (AwaitTimer 5000 still_running)]).

(** The reply to a second analysis: one shot. *)
Definition rooftop_shots : list JsonShot :=
  [mkJsonShot "EXT. ROOFTOP - NIGHT" "Two figures face each other" "Low angle"
              "two silhouettes on a rooftop against city lights"].

Definition rooftop_data : Data := mkData (Some sample_analysis) (Some rooftop_shots).

(** The user analyses the default script, then goes back, pastes another
    scene and analyses it while the calls of the first run are in flight. *)
Definition restart : list Event :=
  [ClickAnalyze; Settled 0 (TextReply (Parsed sample_data));
   ClickAnalyzeAnother; EditScript "EXT. ROOFTOP - NIGHT"; ClickAnalyze;
   Settled 3 (TextReply (Parsed rooftop_data))].

(** After [restart] the calls in flight are, by position: the two image
    calls and the video call of the first run (0, 1, 2), then the image
    call and the video call of the second run (3, 4).  Once the call at 4
    is gone, the video call of the first run is polled once and then
    delivers its video; a call that waits again moves to the last
    position, here 3. *)
Definition first_run_video_completes : list Event :=
  [Settled 2 (OperationReply still_running);
   Settled 3 TimerFired;
   Settled 3 (OperationReply finished_with_video);
   Settled 3 FetchReply;
   Settled 3 (BlobReply "blob:first-run")].

Definition coffee_image : Reply :=
  ImageReply (Some [mkPart (Some ("image/png", "Q09GRkVF"))]).

Definition after_restart : State :=
  Eval vm_compute in default (init false) (steps (init false) restart).

(** ** Further notions used by the properties of the whole component *)

(** The handlers, case by case: the state a handler starts from and the
    effects it performs. *)
Inductive Handled (s : State) : Event → State → list Effect → Prop :=
| handled_click :
    view s = input →
    Handled s ClickAnalyze s (processScript (script s))
| handled_edit text :
    view s = input →
    Handled s (EditScript text) s [SetScript text]
| handled_another a :
    view s = results → analysis s = Some a →
    Handled s ClickAnalyzeAnother s [SetView input]
| handled_text_catch k sc r :
    pending s !! k = Some (AwaitText sc) →
    Handled s (Settled k r) (settle k s) processScript_catch
| handled_text_no_shots k sc r a cs :
    pending s !! k = Some (AwaitText sc) →
    Handled s (Settled k r) (settle k s) (no_shots_effects a cs)
| handled_text_success k sc r a cs l :
    pending s !! k = Some (AwaitText sc) →
    Handled s (Settled k r) (settle k s) (success_effects (aistudio s) sc a cs l)
| handled_image_reply k index prompt parts :
    pending s !! k = Some (AwaitImage index prompt) →
    Handled s (Settled k (ImageReply parts)) (settle k s)
            [UpdateShots (store_image index (extract_image parts))]
| handled_image_error k index prompt :
    pending s !! k = Some (AwaitImage index prompt) →
    Handled s (Settled k Rejected) (settle k s)
            [Emit (ConsoleError "Image gen error"); UpdateShots (clear_loading index)]
| handled_video_waits k stage r stage' :
    pending s !! k = Some (AwaitVideo stage) →
    Handled s (Settled k r) (settle k s) [Suspend (AwaitVideo stage')]
| handled_video_throws k stage :
    pending s !! k = Some (AwaitVideo stage) →
    Handled s (Settled k Rejected) (settle k s)
            (generateVideo_catch ++ generateVideo_finally)
| handled_video_stored k u :
    pending s !! k = Some (AwaitVideo AwaitBlob) →
    Handled s (Settled k (BlobReply u)) (settle k s)
            (SetVideoUrl u :: generateVideo_finally)
| handled_video_absent k stage op :
    pending s !! k = Some (AwaitVideo stage) →
    Handled s (Settled k (OperationReply op)) (settle k s) generateVideo_finally
| handled_click_no_key :
    view s = input →
    Handled s ClickAnalyzeNoKey s processScript_no_key.

(** How many of the calls in flight satisfy [f]. *)
Definition count_calls (f : Pending → bool) (ps : list Pending) : nat :=
  length (List.filter f ps).

Definition awaits_text (p : Pending) : bool :=
  match p with
  | AwaitText _ => true
  | _ => false
  end.

Definition awaits_video (p : Pending) : bool :=
  match p with
  | AwaitVideo _ => true
  | _ => false
  end.

(** The arrows of the view: input to processing (the button), processing
    to results or back to input (the text reply), results to input (the
    link). *)
Definition view_arrow (v v' : View) : bool :=
  match v, v' with
  | input, processing | processing, results | processing, input | results, input => true
  | _, _ => false
  end.

(** The first run has delivered its video; its two image calls are still
    in flight. *)
Definition with_video : State :=
  Eval vm_compute in
    default showing_results
      (steps showing_results
         [Settled 2 (OperationReply finished_with_video); Settled 2 FetchReply;
          Settled 2 (BlobReply "blob:first-run")]).

Definition second_analysis : list Event :=
  [ClickAnalyzeAnother; EditScript "EXT. ROOFTOP - NIGHT"; ClickAnalyze;
   Settled 2 (TextReply (Parsed rooftop_data))].

Definition after_second_analysis : State :=
  Eval vm_compute in default with_video (steps with_video second_analysis).

Definition no_inline (p : Part) : Prop := inlineData p = None.

(** A reply an image call can settle with. *)
Definition image_outcome (r : Reply) : Prop :=
  r = Rejected ∨ ∃ parts, r = ImageReply parts.

(** The shot at index [i] exists and is flagged as loading. *)
Definition flagged_loading (s : State) (i : nat) : bool :=
  match shots s !! i with
  | Some sh => truthy_bool (isLoadingImage sh)
  | None => false
  end.

(** The calls in flight match the loading flags, and none is in flight
    outside the results view. *)
Definition calls_match_flags (s : State) : Prop :=
  (∀ i, image_calls i (pending s) = Nat.b2n (flagged_loading s i))
  ∧ (view s ≠ results → ∀ i, image_calls i (pending s) = 0).

(** [s] with other calls in flight. *)
Definition with_pending (ps : list Pending) (s : State) : State :=
  mkState (view s) (script s) (shots s) (analysis s) (videoUrl s) (isVideoLoading s)
          (processingStep s) (aistudio s) (outputs s) ps.

(** The events that end a polling video call at position [k]: the timer
    fires, the status check reports the finished operation, the fetch and
    the blob resolve. *)
Definition video_delivery (k : nat) (op : Operation) (objectUrl : string) : list Event :=
  [Settled k TimerFired; Settled k (OperationReply op);
   Settled k FetchReply; Settled k (BlobReply objectUrl)].

(** The shot of the storyboard once its image reply has been stored. *)
Definition finished_shot (j : JsonShot) (parts : option (list Part)) : Shot :=
  set_isLoadingImage false (set_imageUrl (extract_image parts) (shot_of_json j)).

(** A whole run in which every call answers: the click, the text reply,
    the image replies in the order of the shots, then the video (with the
    key check first where the page provides one). *)
Definition whole_run (has_aistudio : bool) (data : Data)
    (replies : list (option (list Part))) (op : Operation) (objectUrl : string)
  : list Event :=
  [ClickAnalyze; Settled 0 (TextReply (Parsed data))]
  ++ ((λ parts, Settled 0 (ImageReply parts)) <$> replies)
  ++ (if has_aistudio then [Settled 0 (KeySelected true)] else [])
  ++ [Settled 0 (OperationReply op); Settled 0 FetchReply; Settled 0 (BlobReply objectUrl)].

(** The button was pressed on a fresh page without an API key. *)
Definition no_key_clicked : State :=
  Eval vm_compute in default (init false) (step (init false) ClickAnalyzeNoKey).

(** What the completion of an image call writes into the shot at its
    index: the image and a cleared flag for a reply, the cleared flag alone
    for an error. *)
Definition completion_update (r : Reply) (sh : Shot) : Shot :=
  match r with
  | ImageReply parts => set_isLoadingImage false (set_imageUrl (extract_image parts) sh)
  | _ => set_isLoadingImage false sh
  end.

(** * Properties *)

(** ** How a step unfolds *)

Lemma run_app effs1 effs2 s : run (effs1 ++ effs2) s = run effs2 (run effs1 s).
Proof. unfold run. apply foldl_app. Qed.

Lemma step_settled s k p r effs :
  pending s !! k = Some p →
  resume (aistudio s) p r = Some effs →
  step s (Settled k r) = Some (run effs (settle k s)).
Proof.
  intros Hp Hr. unfold step, handler. rewrite Hp. simpl. rewrite Hr. reflexivity.
Qed.

Lemma step_settled_inv s k r s' :
  step s (Settled k r) = Some s' →
  ∃ p effs, pending s !! k = Some p
            ∧ resume (aistudio s) p r = Some effs
            ∧ s' = run effs (settle k s).
Proof.
  unfold step, handler. intros H.
  destruct (pending s !! k) as [p|] eqn:Hp; simpl in H; [|discriminate].
  destruct (resume (aistudio s) p r) as [effs|] eqn:Hr; simpl in H; [|discriminate].
  exists p, effs. split; [done|]. split; [done|]. congruence.
Qed.

Lemma spawn_from_cons n j l :
  spawn_from n (j :: l) = generateShotImage (shot_of_json j) n ++ spawn_from (S n) l.
Proof.
  unfold spawn_from. rewrite imap_cons. cbn [concat].
  rewrite Nat.add_0_r. f_equal. f_equal.
  apply imap_ext. intros i x _. simpl. by rewrite Nat.add_succ_r.
Qed.

Lemma calls_from_cons n j l :
  calls_from n (j :: l)
  = AwaitImage n (image_prompt (shot_of_json j)) :: calls_from (S n) l.
Proof.
  unfold calls_from. rewrite imap_cons, Nat.add_0_r. f_equal.
  apply imap_ext. intros i x _. simpl. by rewrite Nat.add_succ_r.
Qed.

Lemma run_spawn_from l : ∀ n s,
  run (spawn_from n l) s
  = mkState (view s) (script s) (marks_from n l (shots s)) (analysis s) (videoUrl s)
            (isVideoLoading s) (processingStep s) (aistudio s) (outputs s)
            (pending s ++ calls_from n l).
Proof.
  induction l as [|j l IH]; intros n s.
  - destruct s. unfold spawn_from, calls_from, marks_from. simpl.
    by rewrite app_nil_r.
  - rewrite spawn_from_cons, run_app, IH, calls_from_cons.
    unfold marks_from. simpl. by rewrite <- app_assoc.
Qed.

Lemma marks_from_cons n j l prev :
  marks_from n (j :: l) prev = marks_from (S n) l (mark_loading n prev).
Proof. reflexivity. Qed.

(** On the array processScript has just stored, marking every index
    sets the flag of every shot. *)
Lemma marks_from_fresh l : ∀ (pre : list Shot) (post : list JsonShot),
  marks_from (length pre) l (pre ++ (shot_of_json <$> l ++ post))
  = pre ++ ((set_isLoadingImage true ∘ shot_of_json) <$> l) ++ (shot_of_json <$> post).
Proof.
  induction l as [|j l IH]; intros pre post.
  - reflexivity.
  - rewrite marks_from_cons.
    assert (mark_loading (length pre) (pre ++ (shot_of_json <$> (j :: l) ++ post))
            = (pre ++ [set_isLoadingImage true (shot_of_json j)])
                ++ (shot_of_json <$> l ++ post)) as ->.
    { unfold mark_loading. rewrite <- (Nat.add_0_r (length pre)).
      rewrite alter_app_r. simpl. by rewrite <- app_assoc. }
    specialize (IH (pre ++ [set_isLoadingImage true (shot_of_json j)]) post).
    rewrite length_app in IH. simpl in IH. rewrite Nat.add_1_r in IH.
    rewrite IH. rewrite <- app_assoc. reflexivity.
Qed.

Lemma marks_from_stored l :
  marks_from 0 l (shot_of_json <$> l) = (set_isLoadingImage true ∘ shot_of_json) <$> l.
Proof.
  pose proof (marks_from_fresh l [] []) as H. simpl in H.
  rewrite !app_nil_r in H. exact H.
Qed.

Lemma processScript_resume_success has_aistudio script data a cs l :
  d_analysis data = Some a → ja_casting a = Some cs → d_shots data = Some l →
  processScript_resume has_aistudio script (TextReply (Parsed data))
  = Some (success_effects has_aistudio script a cs l).
Proof. intros Ha Hc Hl. simpl. rewrite Ha, Hc, Hl. reflexivity. Qed.

Lemma run_success_effects s sc a cs l :
  run (success_effects (aistudio s) sc a cs l) s
  = mkState results (script s) ((set_isLoadingImage true ∘ shot_of_json) <$> l)
            (Some (map_analysis a cs)) (videoUrl s) true 2 (aistudio s) (outputs s)
            (pending s ++ calls_from 0 l
             ++ [AwaitVideo (first_video_stage (aistudio s) sc)]).
Proof.
  unfold success_effects. rewrite !run_app, run_spawn_from. simpl.
  rewrite marks_from_stored, <- app_assoc. reflexivity.
Qed.

Lemma step_text_success s k sc data a cs l :
  pending s !! k = Some (AwaitText sc) →
  d_analysis data = Some a → ja_casting a = Some cs → d_shots data = Some l →
  step s (Settled k (TextReply (Parsed data)))
  = Some (mkState results (script s) ((set_isLoadingImage true ∘ shot_of_json) <$> l)
                  (Some (map_analysis a cs)) (videoUrl s) true 2 (aistudio s) (outputs s)
                  (delete k (pending s) ++ calls_from 0 l
                   ++ [AwaitVideo (first_video_stage (aistudio s) sc)])).
Proof.
  intros Hp Ha Hc Hl.
  erewrite step_settled; [|exact Hp|].
  2: { simpl resume. apply (processScript_resume_success _ _ _ _ _ _ Ha Hc Hl). }
  change (aistudio s) with (aistudio (settle k s)) at 1.
  rewrite run_success_effects. reflexivity.
Qed.

Lemma run_processScript_catch s :
  run processScript_catch s
  = mkState input (script s) (shots s) (analysis s) (videoUrl s) (isVideoLoading s)
            (processingStep s) (aistudio s)
            (outputs s ++ [ConsoleError "Error processing script:";
                           Alert "Error processing script. Please try again."])
            (pending s).
Proof. simpl. by rewrite <- app_assoc. Qed.

(** ** Casting portraits *)

Lemma with_image_cycles i c :
  ACTOR_IMAGES !! (i `mod` 4) = Some (image (with_image i c)).
Proof.
  unfold with_image. cbn [image]. change (length ACTOR_IMAGES) with 4.
  destruct (lookup_lt_is_Some_2 ACTOR_IMAGES (i `mod` 4)) as [u Hu].
  { change (length ACTOR_IMAGES) with 4. apply Nat.mod_upper_bound. lia. }
  rewrite Hu. reflexivity.
Qed.

Lemma processScript_resume_no_shots has_aistudio script data a cs :
  d_analysis data = Some a → ja_casting a = Some cs → d_shots data = None →
  processScript_resume has_aistudio script (TextReply (Parsed data))
  = Some (no_shots_effects a cs).
Proof. intros Ha Hc Hl. simpl. rewrite Ha, Hc, Hl. reflexivity. Qed.

Lemma run_no_shots_effects s a cs :
  run (no_shots_effects a cs) s
  = mkState input (script s) [] (Some (map_analysis a cs)) (videoUrl s) (isVideoLoading s)
            2 (aistudio s)
            (outputs s ++ [ConsoleError "Error processing script:";
                           Alert "Error processing script. Please try again."])
            (pending s).
Proof. simpl. by rewrite <- app_assoc. Qed.

Lemma step_text_reply_analysis s k sc data a cs :
  pending s !! k = Some (AwaitText sc) →
  d_analysis data = Some a →
  ja_casting a = Some cs →
  ∃ s', step s (Settled k (TextReply (Parsed data))) = Some s'
        ∧ analysis s' = Some (map_analysis a cs).
Proof.
  intros Hp Ha Hc. destruct (d_shots data) as [l|] eqn:Hl.
  - eexists. split.
    + eapply step_settled; [exact Hp|]. simpl resume.
      apply (processScript_resume_success _ _ _ _ _ _ Ha Hc Hl).
    + change (aistudio s) with (aistudio (settle k s)).
      rewrite run_success_effects. reflexivity.
  - eexists. split.
    + eapply step_settled; [exact Hp|]. simpl resume.
      apply (processScript_resume_no_shots _ _ _ _ _ Ha Hc Hl).
    + rewrite run_no_shots_effects. reflexivity.
Qed.

(** C7.  When the text reply carries an analysis with a casting array, the
    analysis stored by processScript has one suggestion per item of that
    array, in order, with the item's name and match, and the i-th one
    (from 0) has the portrait [ACTOR_IMAGES[i mod 4]]. *)
Theorem casting_images_cycle s k sc data a cs :
  pending s !! k = Some (AwaitText sc) →
  d_analysis data = Some a →
  ja_casting a = Some cs →
  ∃ s' r,
    step s (Settled k (TextReply (Parsed data))) = Some s'
    ∧ analysis s' = Some r
    ∧ length (casting r) = length cs
    ∧ ∀ i jc, cs !! i = Some jc →
        ∃ c, casting r !! i = Some c
             ∧ name c = jc_name jc ∧ match_ c = jc_match jc
             ∧ ACTOR_IMAGES !! (i `mod` 4) = Some (image c).
Proof.
  intros Hp Ha Hc.
  destruct (step_text_reply_analysis _ _ _ _ _ _ Hp Ha Hc) as (s' & Hstep & Han).
  exists s', (map_analysis a cs). split; [done|]. split; [done|]. split.
  - simpl. apply length_imap.
  - intros i jc Hi. exists (with_image i jc). split.
    + simpl. rewrite list_lookup_imap, Hi. reflexivity.
    + split; [reflexivity|]. split; [reflexivity|]. apply with_image_cycles.
Qed.

Lemma casting_images_cycle_witness :
  ∃ s' r,
    step awaiting_text (Settled 0 (TextReply (Parsed (mkData (Some sample_analysis) None))))
    = Some s'
    ∧ analysis s' = Some r
    ∧ length (casting r) = length sample_castings
    ∧ ∀ i jc, sample_castings !! i = Some jc →
        ∃ c, casting r !! i = Some c
             ∧ name c = jc_name jc ∧ match_ c = jc_match jc
             ∧ ACTOR_IMAGES !! (i `mod` 4) = Some (image c).
Proof.
  apply (casting_images_cycle awaiting_text 0 DEFAULT_SCRIPT
           (mkData (Some sample_analysis) None) sample_analysis sample_castings);
    reflexivity.
Defined.

Lemma awaiting_text_reachable : reachable awaiting_text.
Proof. apply (reachable_step (init false) ClickAnalyze); [constructor | reflexivity]. Qed.

Lemma showing_results_reachable : reachable showing_results.
Proof.
  apply (reachable_step awaiting_text (Settled 0 (TextReply (Parsed sample_data))));
    [apply awaiting_text_reachable | reflexivity].
Qed.

(** ** Failure of the text analysis *)

(** C5.  When the awaited text-analysis call throws, processScript logs the
    error, shows the alert and sets the view to "input"; nothing else of
    the state changes and no call is started. *)
Theorem text_failure_alerts_and_resets s k sc :
  pending s !! k = Some (AwaitText sc) →
  ∃ s', step s (Settled k Rejected) = Some s'
        ∧ view s' = input
        ∧ outputs s' = outputs s ++ [ConsoleError "Error processing script:";
                                     Alert "Error processing script. Please try again."]
        ∧ shots s' = shots s ∧ analysis s' = analysis s ∧ videoUrl s' = videoUrl s
        ∧ pending s' = delete k (pending s).
Proof.
  intros Hp. eexists. split.
  - eapply step_settled; [exact Hp | reflexivity].
  - rewrite run_processScript_catch. simpl. repeat split; reflexivity.
Qed.

Lemma text_failure_alerts_and_resets_witness :
  ∃ s', step awaiting_text (Settled 0 Rejected) = Some s'
        ∧ view s' = input
        ∧ outputs s' = outputs awaiting_text
                       ++ [ConsoleError "Error processing script:";
                           Alert "Error processing script. Please try again."]
        ∧ shots s' = shots awaiting_text ∧ analysis s' = analysis awaiting_text
        ∧ videoUrl s' = videoUrl awaiting_text
        ∧ pending s' = delete 0 (pending awaiting_text).
Proof.
  apply (text_failure_alerts_and_resets awaiting_text 0 DEFAULT_SCRIPT). reflexivity.
Defined.

(** C10.  When the parsed reply is an object without [analysis], or with
    an [analysis] without [casting], or without [shots], an access in the
    try block throws and the catch branch runs: the alert is shown and the
    view ends as "input". *)
Theorem missing_fields_reach_catch s k sc data :
  pending s !! k = Some (AwaitText sc) →
  d_analysis data = None
  ∨ (∃ a, d_analysis data = Some a ∧ ja_casting a = None)
  ∨ d_shots data = None →
  ∃ s', step s (Settled k (TextReply (Parsed data))) = Some s'
        ∧ view s' = input
        ∧ outputs s' = outputs s ++ [ConsoleError "Error processing script:";
                                     Alert "Error processing script. Please try again."].
Proof.
  intros Hp Hmiss.
  assert (processScript_resume (aistudio s) sc (TextReply (Parsed data))
          = Some processScript_catch
          ∨ ∃ a cs, processScript_resume (aistudio s) sc (TextReply (Parsed data))
                    = Some (no_shots_effects a cs)) as Hr.
  { simpl. destruct (d_analysis data) as [a|] eqn:Ha; [|by left].
    destruct (ja_casting a) as [cs|] eqn:Hc; [|by left].
    destruct Hmiss as [?|[(a' & ? & Hc')|Hl]]; [discriminate| |].
    - congruence.
    - right. exists a, cs. rewrite Hl. reflexivity. }
  destruct Hr as [Hr|(a & cs & Hr)]; eexists; (split;
    [eapply step_settled; [exact Hp | exact Hr]|]).
  - rewrite run_processScript_catch. split; reflexivity.
  - rewrite run_no_shots_effects. split; reflexivity.
Qed.

Lemma missing_fields_reach_catch_witness :
  ∃ s', step awaiting_text
             (Settled 0 (TextReply (Parsed (mkData (Some sample_analysis) None)))) = Some s'
        ∧ view s' = input
        ∧ outputs s' = outputs awaiting_text
                       ++ [ConsoleError "Error processing script:";
                           Alert "Error processing script. Please try again."].
Proof.
  apply (missing_fields_reach_catch awaiting_text 0 DEFAULT_SCRIPT
           (mkData (Some sample_analysis) None)).
  - reflexivity.
  - right. right. reflexivity.
Defined.

(** ** Image calls and their completions *)

Lemma image_calls_calls_from l : ∀ n i,
  image_calls i (calls_from n l) = if decide (n ≤ i < n + length l) then 1 else 0.
Proof.
  induction l as [|j l IH]; intros n i.
  - simpl. case_decide; [lia | reflexivity].
  - rewrite calls_from_cons. unfold image_calls in *. simpl.
    destruct (Nat.eqb_spec n i) as [->|Hne]; simpl; rewrite IH.
    + repeat case_decide; lia.
    + repeat case_decide; lia.
Qed.

Lemma lookup_calls_from l n i j :
  l !! i = Some j →
  calls_from n l !! i = Some (AwaitImage (n + i) (image_prompt (shot_of_json j))).
Proof. intros Hi. unfold calls_from. rewrite list_lookup_imap, Hi. reflexivity. Qed.

Lemma resume_image_effects has_aistudio index prompt r effs :
  resume has_aistudio (AwaitImage index prompt) r = Some effs →
  (∃ parts, r = ImageReply parts
            ∧ effs = [UpdateShots (store_image index (extract_image parts))])
  ∨ (r = Rejected
     ∧ effs = [Emit (ConsoleError "Image gen error"); UpdateShots (clear_loading index)]).
Proof.
  simpl. unfold generateShotImage_resume.
  destruct r; intros H; try discriminate; injection H as <-; eauto.
Qed.

(** C8.  A text reply with [n] shots starts exactly one image call for each
    index below [n] and none for any other index, the i-th call being the
    one for the i-th shot.  An image call can settle with a reply or with
    an error.  When it does, the slot at its own index is updated (the
    image and a cleared flag for a reply, the cleared flag for an error),
    nothing is started, the shots array keeps its length, every slot other
    than the call's own index is unchanged, and so are the analysis, the
    video URL, the view and the rest of the state. *)
Theorem one_call_per_shot_own_slot :
  (∀ s k sc data a cs l,
     pending s !! k = Some (AwaitText sc) →
     d_analysis data = Some a → ja_casting a = Some cs → d_shots data = Some l →
     ∃ s' issued,
       step s (Settled k (TextReply (Parsed data))) = Some s'
       ∧ pending s' = delete k (pending s) ++ issued
                      ++ [AwaitVideo (first_video_stage (aistudio s) sc)]
       ∧ length issued = length l
       ∧ (∀ i j, l !! i = Some j →
                 issued !! i = Some (AwaitImage i (image_prompt (shot_of_json j))))
       ∧ (∀ i, image_calls i issued = if decide (i < length l) then 1 else 0))
  ∧ (∀ s k index prompt r,
       pending s !! k = Some (AwaitImage index prompt) →
       image_outcome r →
       is_Some (step s (Settled k r)))
  ∧ (∀ s k index prompt r s',
       pending s !! k = Some (AwaitImage index prompt) →
       step s (Settled k r) = Some s' →
       shots s' !! index = completion_update r <$> shots s !! index
       ∧ pending s' = delete k (pending s)
       ∧ length (shots s') = length (shots s)
       ∧ (∀ j, j ≠ index → shots s' !! j = shots s !! j)
       ∧ analysis s' = analysis s ∧ videoUrl s' = videoUrl s ∧ view s' = view s
       ∧ isVideoLoading s' = isVideoLoading s ∧ processingStep s' = processingStep s
       ∧ script s' = script s).
Proof.
  split; [|split].
  - intros s k sc data a cs l Hp Ha Hc Hl.
    exists (run (success_effects (aistudio s) sc a cs l) (settle k s)), (calls_from 0 l).
    split.
    { eapply step_settled; [exact Hp|]. simpl resume.
      apply (processScript_resume_success _ _ _ _ _ _ Ha Hc Hl). }
    change (aistudio s) with (aistudio (settle k s)).
    rewrite run_success_effects. simpl. split; [reflexivity|].
    split; [apply length_imap|]. split.
    + intros i j Hi. apply (lookup_calls_from l 0 i j Hi).
    + intros i. rewrite image_calls_calls_from. repeat case_decide; lia.
  - intros s k index prompt r Hp [->|[parts ->]]; eexists;
      (eapply step_settled; [exact Hp | reflexivity]).
  - intros s k index prompt r s' Hp Hstep.
    apply step_settled_inv in Hstep as (p & effs & Hp' & Hr & ->).
    rewrite Hp in Hp'. injection Hp' as <-.
    apply resume_image_effects in Hr as [(parts & -> & ->)|[-> ->]]; simpl.
    + unfold store_image. rewrite length_alter, list_lookup_alter_eq.
      repeat split; try reflexivity. intros j Hj. by apply list_lookup_alter_ne.
    + unfold clear_loading. rewrite length_alter, list_lookup_alter_eq.
      repeat split; try reflexivity. intros j Hj. by apply list_lookup_alter_ne.
Qed.

Lemma one_call_per_shot_own_slot_witness :
  (∃ s' issued,
     step awaiting_text (Settled 0 (TextReply (Parsed sample_data))) = Some s'
     ∧ pending s' = delete 0 (pending awaiting_text) ++ issued
                    ++ [AwaitVideo (first_video_stage false DEFAULT_SCRIPT)]
     ∧ length issued = length sample_shots
     ∧ (∀ i j, sample_shots !! i = Some j →
               issued !! i = Some (AwaitImage i (image_prompt (shot_of_json j))))
     ∧ (∀ i, image_calls i issued = if decide (i < length sample_shots) then 1 else 0))
  ∧ is_Some (step showing_results (Settled 1 coffee_image))
  ∧ (∃ s', step showing_results (Settled 1 coffee_image) = Some s'
           ∧ shots s' !! 1
             = Some (mkShot "INT. COFFEE SHOP - DAY" "A woman enters" "Wide shot"
                            "a woman in a red trench coat at the door"
                            (Some "data:image/png;base64,Q09GRkVF") (Some false))
           ∧ shots s' !! 0 = shots showing_results !! 0
           ∧ pending s' = delete 1 (pending showing_results))
  ∧ (∃ s', step showing_results (Settled 1 Rejected) = Some s'
           ∧ shots s' !! 1
             = Some (mkShot "INT. COFFEE SHOP - DAY" "A woman enters" "Wide shot"
                            "a woman in a red trench coat at the door" None (Some false))
           ∧ shots s' !! 0 = shots showing_results !! 0
           ∧ pending s' = delete 1 (pending showing_results)).
Proof.
  destruct one_call_per_shot_own_slot as (Hissue & Hsettles & Hslot).
  split; [|split; [|split]].
  - apply (Hissue awaiting_text 0 DEFAULT_SCRIPT sample_data sample_analysis
             sample_castings sample_shots); reflexivity.
  - apply (Hsettles showing_results 1 1
             (image_prompt (shot_of_json (mkJsonShot "INT. COFFEE SHOP - DAY"
                "A woman enters" "Wide shot" "a woman in a red trench coat at the door")))
             coffee_image); [reflexivity | right; by eexists].
  - eexists. split; [reflexivity|].
    destruct (Hslot showing_results 1 1
                (image_prompt (shot_of_json (mkJsonShot "INT. COFFEE SHOP - DAY"
                   "A woman enters" "Wide shot" "a woman in a red trench coat at the door")))
                coffee_image _ eq_refl eq_refl) as (Hown & Hgone & _ & Hothers & _).
    split; [exact Hown|]. split; [by apply Hothers | exact Hgone].
  - eexists. split; [reflexivity|].
    destruct (Hslot showing_results 1 1
                (image_prompt (shot_of_json (mkJsonShot "INT. COFFEE SHOP - DAY"
                   "A woman enters" "Wide shot" "a woman in a red trench coat at the door")))
                Rejected _ eq_refl eq_refl) as (Hown & Hgone & _ & Hothers & _).
    split; [exact Hown|]. split; [by apply Hothers | exact Hgone].
Defined.

(** ** The video call *)

Lemma video_waiting_reachable : reachable video_waiting.
Proof.
  apply (reachable_step showing_results (Settled 2 (OperationReply still_running)));
    [apply showing_results_reachable | reflexivity].
Qed.

Lemma poll_cases op :
  (truthy_bool (op_done op) = false
   ∧ poll op = [Suspend (AwaitVideo (AwaitTimer 5000 op))])
  ∨ (truthy_bool (op_done op) = true
     ∧ ∃ uri, op_uri op = Some uri ∧ truthy_string (op_uri op) = true
              ∧ poll op = [Suspend (AwaitVideo (AwaitFetch uri))])
  ∨ (truthy_bool (op_done op) = true ∧ truthy_string (op_uri op) = false
     ∧ poll op = generateVideo_finally).
Proof.
  unfold poll. destruct (truthy_bool (op_done op)); [|by left]. right.
  destruct (op_uri op) as [uri|]; simpl; [|by right].
  destruct (String.eqb uri ""); simpl; [by right|]. left. eauto.
Qed.

Lemma generateVideo_resume_cases stage r effs :
  generateVideo_resume stage r = Some effs → VideoOutcome stage r effs.
Proof.
  intros H.
  destruct stage, r; unfold generateVideo_resume in H; cbv beta iota in H;
    try discriminate; injection H as <-;
    try (by eapply video_throws);
    try (by eapply video_waits; [reflexivity | intros ? ? [=]]);
    try (by eapply video_stored).
  all: match goal with |- VideoOutcome _ _ (poll ?o) =>
         destruct (poll_cases o) as [[Hd ->]|[(Hd & uri & Hu & Ht & ->)|(Hd & Ht & ->)]]
       end;
    first [ by eapply video_waits; [reflexivity | intros ? ? [=]]
          | by eapply video_absent ].
Qed.

Lemma app_singleton_neq {A} (l : list A) x : l ++ [x] ≠ l.
Proof. intros H. apply (f_equal length) in H. rewrite length_app in H. simpl in H. lia. Qed.

(** C9.  Whenever a reply ends generateVideo (no further await follows),
    [isVideoLoading] is [false] in the resulting state, and the call ended
    in one of three ways: a video URL was stored, the finished operation
    carried no video URI, or an awaited call threw. *)
Theorem video_termination_clears_loading s k stage r s' :
  pending s !! k = Some (AwaitVideo stage) →
  step s (Settled k r) = Some s' →
  pending s' = delete k (pending s) →
  isVideoLoading s' = false
  ∧ ((∃ u, r = BlobReply u ∧ videoUrl s' = Some u)
     ∨ (∃ op, r = OperationReply op ∧ truthy_bool (op_done op) = true
              ∧ truthy_string (op_uri op) = false ∧ videoUrl s' = videoUrl s)
     ∨ (r = Rejected ∧ videoUrl s' = videoUrl s
        ∧ outputs s' = outputs s ++ [ConsoleError "Video generation failed"])).
Proof.
  intros Hp Hstep Hgone.
  apply step_settled_inv in Hstep as (p & effs & Hp' & Hr & ->).
  rewrite Hp in Hp'. injection Hp' as <-. simpl in Hr.
  destruct (generateVideo_resume_cases _ _ _ Hr) as
    [stage' -> _ | -> _ -> | u -> _ -> | op -> Hd Hu ->].
  - simpl in Hgone. by apply app_singleton_neq in Hgone.
  - simpl. split; [reflexivity|]. right. right. done.
  - simpl. split; [reflexivity|]. left. eauto.
  - simpl. split; [reflexivity|]. right. left. eauto.
Qed.

Lemma video_termination_clears_loading_witness :
  ∃ s', step showing_results (Settled 2 (OperationReply finished_without_video)) = Some s'
        ∧ pending s' = delete 2 (pending showing_results)
        ∧ isVideoLoading showing_results = true
        ∧ isVideoLoading s' = false.
Proof.
  eexists. split; [reflexivity|]. split; [reflexivity|]. split; [reflexivity|].
  apply (video_termination_clears_loading showing_results 2
           (AwaitGenerate (video_prompt DEFAULT_SCRIPT))
           (OperationReply finished_without_video)); reflexivity.
Defined.

(** ** The polling loop (lines 262-266) *)

Lemma processScript_resume_cases has_aistudio sc r effs :
  processScript_resume has_aistudio sc r = Some effs →
  effs = processScript_catch
  ∨ (∃ a cs, effs = no_shots_effects a cs)
  ∨ (∃ a cs l, effs = success_effects has_aistudio sc a cs l).
Proof.
  destruct r as [|[|data]| | | | | |]; simpl; try discriminate;
    try (intros [= <-]; by left).
  destruct (d_analysis data) as [a|]; [|intros [= <-]; by left].
  destruct (ja_casting a) as [cs|]; [|intros [= <-]; by left].
  destruct (d_shots data) as [l|]; intros [= <-]; right.
  - right. by exists a, cs, l.
  - left. by exists a, cs.
Qed.

Lemma Forall_timer_ok_calls_from n l : Forall timer_ok (calls_from n l).
Proof.
  apply Forall_forall. intros p Hin d op ->.
  apply list_elem_of_lookup in Hin as [i Hi].
  unfold calls_from in Hi. rewrite list_lookup_imap in Hi.
  destruct (l !! i); discriminate.
Qed.

Lemma step_preserves_timer_ok s ev s' :
  Forall timer_ok (pending s) → step s ev = Some s' → Forall timer_ok (pending s').
Proof.
  intros Hinv Hstep. destruct ev as [|text| |k r|].
  5: { unfold step, handler in Hstep. destruct (view s); try discriminate.
       by injection Hstep as <-. }
  - unfold step, handler in Hstep. destruct (view s); try discriminate.
    injection Hstep as <-. simpl. apply Forall_app. split; [done|].
    apply Forall_singleton. intros d op [=].
  - unfold step, handler in Hstep. destruct (view s); try discriminate.
    by injection Hstep as <-.
  - unfold step, handler in Hstep.
    destruct (view s), (analysis s); try discriminate. by injection Hstep as <-.
  - apply step_settled_inv in Hstep as (p & effs & Hp & Hr & ->).
    assert (Forall timer_ok (delete k (pending s))) as Hdel by by apply Forall_delete.
    destruct p as [sc|index prompt|stage]; simpl in Hr.
    + apply processScript_resume_cases in Hr as [->|[(a & cs & ->)|(a & cs & l & ->)]].
      * by rewrite run_processScript_catch.
      * by rewrite run_no_shots_effects.
      * change (aistudio s) with (aistudio (settle k s)).
        rewrite run_success_effects. simpl.
        apply Forall_app. split; [done|]. apply Forall_app. split.
        { apply Forall_timer_ok_calls_from. }
        apply Forall_singleton. intros d op. unfold first_video_stage.
        destruct (aistudio s); intros [=].
    + apply (resume_image_effects false index prompt) in Hr
        as [(parts & -> & ->)|[-> ->]]; done.
    + destruct (generateVideo_resume_cases _ _ _ Hr) as
        [stage' -> Hd | -> _ -> | u -> _ -> | op -> _ _ ->]; simpl; try done.
      apply Forall_app. split; [done|]. apply Forall_singleton.
      intros d op [= ->]. by eapply Hd.
Qed.

Lemma reachable_timer_ok s : reachable s → Forall timer_ok (pending s).
Proof.
  induction 1 as [has_aistudio|s ev s' _ IH Hstep].
  - constructor.
  - by eapply step_preserves_timer_ok.
Qed.

Lemma poll_round s ps d op0 op :
  pending s = ps ++ [AwaitVideo (AwaitTimer d op0)] →
  not_done op →
  ∃ s', steps s [Settled (length ps) TimerFired; Settled (length ps) (OperationReply op)]
        = Some s'
        ∧ pending s' = ps ++ [AwaitVideo (AwaitTimer 5000 op)]
        ∧ videoUrl s' = videoUrl s ∧ isVideoLoading s' = isVideoLoading s
        ∧ outputs s' = outputs s.
Proof.
  intros Hp Hnd.
  assert (∀ (x : Pending), (ps ++ [x]) !! length ps = Some x) as Hlast.
  { intros x. rewrite lookup_app_r by lia. by rewrite Nat.sub_diag. }
  assert (∀ (x : Pending), delete (length ps) (ps ++ [x]) = ps) as Hdel.
  { intros x. rewrite delete_middle. apply app_nil_r. }
  eexists. split.
  - cbn [steps].
    erewrite step_settled; [| rewrite Hp; apply Hlast | reflexivity].
    cbn [mbind option_bind].
    erewrite step_settled; [reflexivity | simpl; rewrite Hp, Hdel; apply Hlast |].
    simpl. unfold poll. unfold not_done in Hnd. rewrite Hnd. reflexivity.
  - simpl. rewrite Hp, !Hdel. done.
Qed.

Lemma last_cons_default {A} (l : list A) : ∀ x d, List.last (x :: l) d = List.last l x.
Proof.
  induction l as [|y l IH]; intros x d; [reflexivity|].
  change (List.last (x :: y :: l) d) with (List.last (y :: l) d).
  by rewrite !IH.
Qed.

Lemma poll_rounds_keep_waiting ops : ∀ s ps op0,
  pending s = ps ++ [AwaitVideo (AwaitTimer 5000 op0)] →
  Forall not_done ops →
  ∃ s', steps s (poll_rounds (length ps) ops) = Some s'
        ∧ pending s' = ps ++ [AwaitVideo (AwaitTimer 5000 (List.last ops op0))]
        ∧ videoUrl s' = videoUrl s ∧ isVideoLoading s' = isVideoLoading s
        ∧ outputs s' = outputs s.
Proof.
  induction ops as [|op ops IH]; intros s ps op0 Hp Hops.
  - exists s. done.
  - apply Forall_cons in Hops as [Hop Hops].
    destruct (poll_round s ps _ op0 op Hp Hop) as (s1 & Hs1 & Hp1 & Hv1 & Hl1 & Ho1).
    destruct (IH s1 ps op Hp1 Hops) as (s2 & Hs2 & Hp2 & Hv2 & Hl2 & Ho2).
    exists s2. split.
    + cbn [poll_rounds steps] in *.
      destruct (step s (Settled (length ps) TimerFired)) as [sa|]; [|discriminate].
      simpl in *.
      destruct (step sa (Settled (length ps) (OperationReply op))) as [sb|]; [|discriminate].
      simpl in *. injection Hs1 as ->. exact Hs2.
    + split; [|split; [congruence|split; congruence]].
      rewrite Hp2. by rewrite last_cons_default.
Qed.

(** C4.  The polling loop of generateVideo: (1) every timer it ever waits
    on runs 5000 ms; (2) while the timer runs nothing but its firing
    resumes the call, and the firing is followed by one status check;
    (3) a status reply that is not done starts the same 5000 ms timer
    again, and the loop is left only by a reply that is done or by a call
    that throws; (4) there is no bound on the rounds: after any number of
    replies that are not done the call still waits on a 5000 ms timer. *)
Theorem poll_every_five_seconds :
  (∀ s d op, reachable s → AwaitVideo (AwaitTimer d op) ∈ pending s → d = 5000%Z)
  ∧ (∀ d op r effs,
       generateVideo_resume (AwaitTimer d op) r = Some effs →
       r = TimerFired ∧ effs = [Suspend (AwaitVideo (AwaitPoll op))])
  ∧ (∀ stage r effs,
       awaits_status stage = true →
       generateVideo_resume stage r = Some effs →
       (∃ op, r = OperationReply op ∧ not_done op
              ∧ effs = [Suspend (AwaitVideo (AwaitTimer 5000 op))])
       ∨ (stays_in_loop effs = false
          ∧ ((∃ op, r = OperationReply op ∧ truthy_bool (op_done op) = true)
             ∨ r = Rejected)))
  ∧ (∀ s ps op0 ops,
       pending s = ps ++ [AwaitVideo (AwaitTimer 5000 op0)] →
       Forall not_done ops →
       ∃ s', steps s (poll_rounds (length ps) ops) = Some s'
             ∧ pending s' = ps ++ [AwaitVideo (AwaitTimer 5000 (List.last ops op0))]).
Proof.
  split; [|split; [|split]].
  - intros s d op Hreach Hin.
    apply reachable_timer_ok in Hreach.
    rewrite Forall_forall in Hreach. by apply (Hreach _ Hin d op).
  - intros d op r effs H. destruct r; simpl in H; try discriminate.
    injection H as <-. done.
  - intros stage r effs Hst H.
    destruct stage; try discriminate Hst;
      (destruct r; unfold generateVideo_resume in H; cbv beta iota in H;
       try discriminate; injection H as <-; [right; split; [reflexivity | by right]|]).
    all: match goal with |- context [poll ?o] =>
           destruct (poll_cases o) as [[Hd ->]|[(Hd & uri & Hu & Ht & ->)|(Hd & Ht & ->)]]
         end;
      first [ left; eexists; split; [reflexivity|]; split; [exact Hd | reflexivity]
            | right; split; [reflexivity | left; eexists; split; [reflexivity | exact Hd]] ].
  - intros s ps op0 ops Hp Hops.
    destruct (poll_rounds_keep_waiting ops s ps op0 Hp Hops) as (s' & Hs & Hp' & _).
    by exists s'.
Qed.

Lemma poll_every_five_seconds_witness :
  (reachable video_waiting
   ∧ AwaitVideo (AwaitTimer 5000 still_running) ∈ pending video_waiting)
  ∧ generateVideo_resume (AwaitTimer 5000 still_running) TimerFired
    = Some [Suspend (AwaitVideo (AwaitPoll still_running))]
  ∧ generateVideo_resume (AwaitPoll still_running) (OperationReply still_running)
    = Some [Suspend (AwaitVideo (AwaitTimer 5000 still_running))]
  ∧ ∃ s', steps video_waiting (poll_rounds 2 [still_running; still_running; still_running])
          = Some s'
          ∧ pending s' = calls_from 0 sample_shots
                         ++ [AwaitVideo (AwaitTimer 5000 still_running)].
Proof.
  destruct poll_every_five_seconds as (Hfixed & Htimer & Hcheck & Hrounds).
  split; [|split; [|split]].
  - split; [apply video_waiting_reachable|].
    apply list_elem_of_lookup. exists 2. reflexivity.
  - reflexivity.
  - reflexivity.
  - apply (Hrounds video_waiting (calls_from 0 sample_shots) still_running
             [still_running; still_running; still_running]).
    + reflexivity.
    + repeat constructor.
Defined.

(** ** Failure of the video call *)

Lemma quiet_step s ev s' :
  quiet s → ev ≠ ClickAnalyze → step s ev = Some s' → quiet s'.
Proof.
  intros (Hv & Hl & Hp) Hev Hstep. destruct ev as [|text| |k r|]; [done| | | |].
  4: { unfold step, handler in Hstep. destruct (view s); try discriminate.
       by injection Hstep as <-. }
  - unfold step, handler in Hstep. destruct (view s); try discriminate.
    by injection Hstep as <-.
  - unfold step, handler in Hstep.
    destruct (view s), (analysis s); try discriminate. by injection Hstep as <-.
  - apply step_settled_inv in Hstep as (p & effs & Hk & Hr & ->).
    pose proof (proj1 (Forall_lookup _ _) Hp k p Hk) as Himg.
    destruct p as [sc|index prompt|stage]; try discriminate Himg.
    apply (resume_image_effects (aistudio s) index prompt) in Hr
      as [(parts & -> & ->)|[-> ->]];
      (split; [exact Hv|split; [exact Hl|]]; simpl; by apply Forall_delete).
Qed.

Lemma quiet_steps evs : ∀ s s',
  quiet s → ClickAnalyze ∉ evs → steps s evs = Some s' → quiet s'.
Proof.
  induction evs as [|ev evs IH]; intros s s' Hq Hno Hsteps.
  - simpl in Hsteps. by injection Hsteps as <-.
  - simpl in Hsteps. destruct (step s ev) as [s1|] eqn:Hstep; [|discriminate].
    simpl in Hsteps. apply not_elem_of_cons in Hno as [Hne Hno].
    eapply IH; [|exact Hno|exact Hsteps].
    eapply quiet_step; [exact Hq| |exact Hstep]. congruence.
Qed.

Lemma quiet_render s :
  quiet s →
  render_video s = VideoPlaceholder "Esperando inicio..."
  ∧ ∀ a, view s = results → analysis s = Some a →
         render s = ResultsView a (VideoPlaceholder "Esperando inicio...")
                                (render_shot <$> shots s).
Proof.
  intros (Hv & Hl & _).
  assert (render_video s = VideoPlaceholder "Esperando inicio...") as Hrv.
  { unfold render_video. rewrite Hv, Hl. reflexivity. }
  split; [exact Hrv|]. intros a Hview Ha. unfold render. by rewrite Hview, Ha, Hrv.
Qed.

(** C1, as amended.  When a call awaited by generateVideo throws, the
    failure is written to the console and nowhere else, the loading flag is
    cleared and [videoUrl], the view, the shots and the analysis are left
    as they were.  If [videoUrl] was null, the video slot shows the spinner
    placeholder; and if moreover only image calls remain in flight, it
    keeps doing so, with [videoUrl] null, through every later event for as
    long as the user does not start another analysis. *)
Theorem video_failure_console_only s k stage :
  pending s !! k = Some (AwaitVideo stage) →
  (∀ d op, stage ≠ AwaitTimer d op) →
  ∃ s', step s (Settled k Rejected) = Some s'
        ∧ outputs s' = outputs s ++ [ConsoleError "Video generation failed"]
        ∧ videoUrl s' = videoUrl s ∧ view s' = view s
        ∧ shots s' = shots s ∧ analysis s' = analysis s
        ∧ isVideoLoading s' = false
        ∧ pending s' = delete k (pending s)
        ∧ (videoUrl s = None →
           render_video s' = VideoPlaceholder "Esperando inicio...")
        ∧ (videoUrl s = None → only_images (delete k (pending s)) →
           ∀ evs s'', ClickAnalyze ∉ evs → steps s' evs = Some s'' →
             videoUrl s'' = None
             ∧ render_video s'' = VideoPlaceholder "Esperando inicio..."
             ∧ ∀ a, view s'' = results → analysis s'' = Some a →
                    render s'' = ResultsView a (VideoPlaceholder "Esperando inicio...")
                                            (render_shot <$> shots s'')).
Proof.
  intros Hp Hcall.
  assert (generateVideo_resume stage Rejected
          = Some (generateVideo_catch ++ generateVideo_finally)) as Hr.
  { destruct stage; try reflexivity. by destruct (Hcall delay operation). }
  eexists. split; [eapply step_settled; [exact Hp | exact Hr]|].
  simpl. do 7 (split; [reflexivity|]). split.
  - intros Hv. unfold render_video. simpl. rewrite Hv. reflexivity.
  - intros Hv Himgs evs s'' Hno Hsteps.
    assert (quiet s'') as Hq.
    { eapply quiet_steps; [|exact Hno|exact Hsteps]. done. }
    split; [apply Hq|]. by apply quiet_render.
Qed.

Lemma video_failure_console_only_witness :
  ∃ s' s'',
    step showing_results (Settled 2 Rejected) = Some s'
    ∧ outputs s' = [ConsoleError "Video generation failed"]
    ∧ steps s' [Settled 0 Rejected; Settled 0 coffee_image] = Some s''
    ∧ videoUrl s'' = None
    ∧ render_video s'' = VideoPlaceholder "Esperando inicio...".
Proof.
  destruct (video_failure_console_only showing_results 2
              (AwaitGenerate (video_prompt DEFAULT_SCRIPT)) eq_refl)
    as (s' & Hstep & Hout & _ & _ & _ & _ & _ & _ & _ & Hkeep).
  { intros d op [=]. }
  exists s'.
  assert (s' = run (generateVideo_catch ++ generateVideo_finally) (settle 2 showing_results))
    as Hs' by (vm_compute in Hstep; injection Hstep as <-; reflexivity).
  assert (steps s' [Settled 0 Rejected; Settled 0 coffee_image] = Some
            (run [UpdateShots (store_image 1 (extract_image
                    (Some [mkPart (Some ("image/png", "Q09GRkVF"))])))]
               (settle 0 (run [Emit (ConsoleError "Image gen error");
                               UpdateShots (clear_loading 0)] (settle 0 s')))))
    as Hsteps by (rewrite Hs'; reflexivity).
  eexists. split; [exact Hstep|]. split; [exact Hout|]. split; [exact Hsteps|].
  destruct (Hkeep eq_refl) with (3 := Hsteps) as (Hv & Hr & _).
  - repeat constructor.
  - intros Hin. repeat (apply elem_of_cons in Hin as [[=]|Hin]). by apply elem_of_nil in Hin.
  - split; [exact Hv | exact Hr].
Defined.

(** C1, as stated, fails.  After [restart] the video call of the second run
    throws while [videoUrl] is null; the failure is logged and [videoUrl]
    is still null.  Then the video call of the first run, never cancelled,
    completes: without any further analysis being started, [videoUrl] is
    set and the results view shows a video element. *)
Lemma video_slot_not_perpetual :
  (s ← steps (init false) restart; Some (videoUrl s, pending s !! 4))
  = Some (None, Some (AwaitVideo (AwaitGenerate (video_prompt "EXT. ROOFTOP - NIGHT"))))
  ∧ (s ← steps (init false) (restart ++ [Settled 4 Rejected]);
     Some (videoUrl s, outputs s, render_video s))
    = Some (None, [ConsoleError "Video generation failed"],
            VideoPlaceholder "Esperando inicio...")
  ∧ (ClickAnalyze ∉ first_run_video_completes)
  ∧ (s ← steps (init false) (restart ++ [Settled 4 Rejected] ++ first_run_video_completes);
     Some (view s, videoUrl s, render_video s))
    = Some (results, Some "blob:first-run", VideoElement "blob:first-run").
Proof.
  split; [reflexivity|]. split; [reflexivity|]. split; [|reflexivity].
  intros Hin. repeat (apply elem_of_cons in Hin as [[=]|Hin]). by apply elem_of_nil in Hin.
Qed.

(** ** Completions that arrive after a restart *)

(** C2, as stated, fails.  After [restart] the shots are those of the
    second run, its one shot waiting for its image, and the image call of
    the first run for index 0 is still in flight.  When that call
    completes, its image is written into the second run's shot and the
    shot's loading flag is cleared, although the second run's own call for
    that shot is still in flight: the storyboard of the second run shows
    the picture made for the first. *)
Lemma stale_image_lands_in_new_run :
  (s ← steps (init false) restart;
   Some (shots s, render_shot <$> shots s, pending s !! 0))
  = Some ([mkShot "EXT. ROOFTOP - NIGHT" "Two figures face each other" "Low angle"
                  "two silhouettes on a rooftop against city lights" None (Some true)],
          [ShotPlaceholder true "Generando imagen..."],
          Some (AwaitImage 0 "Cinematic storyboard sketch, loose charcoal style. a cold cup of coffee by a rain-streaked window. Angle: Close-up"))
  ∧ (s ← steps (init false) (restart ++ [Settled 0 coffee_image]);
     Some (shots s, render_shot <$> shots s, pending s !! 2))
    = Some ([mkShot "EXT. ROOFTOP - NIGHT" "Two figures face each other" "Low angle"
                    "two silhouettes on a rooftop against city lights"
                    (Some "data:image/png;base64,Q09GRkVF") (Some false)],
            [ShotImage "data:image/png;base64,Q09GRkVF"],
            Some (AwaitImage 0 "Cinematic storyboard sketch, loose charcoal style. two silhouettes on a rooftop against city lights. Angle: Low angle")).
Proof. split; reflexivity. Qed.

Lemma alter_past_end {A} (f : A → A) (l : list A) : ∀ i,
  (length l ≤ i)%nat → alter f i l = l.
Proof.
  induction l as [|x l IH]; intros i Hi; [reflexivity|].
  destruct i as [|i]; simpl in Hi; [lia|].
  simpl. f_equal. apply IH. lia.
Qed.

Lemma alter_fixed {A} (f : A → A) (l : list A) i :
  alter f i l = l ↔ ∀ x, l !! i = Some x → f x = x.
Proof.
  split.
  - intros Heq x Hx. apply (f_equal (λ l', l' !! i)) in Heq.
    rewrite list_lookup_alter_eq, Hx in Heq. simpl in Heq. congruence.
  - intros Hfix. apply list_eq. intros j.
    destruct (decide (i = j)) as [<-|Hne]; [|by apply list_lookup_alter_ne].
    rewrite list_lookup_alter_eq. destruct (l !! i) as [x|] eqn:Hx; [|reflexivity].
    simpl. by rewrite (Hfix x).
Qed.

(** C2, as amended.  The completion of an image call is applied to the
    shots array that is current when it arrives, whichever run stored it.
    The slot at the call's index gets the call's image and a cleared
    loading flag (on an error, the cleared flag only); every other slot
    and the length of the array are kept.  So the shots are left unchanged
    exactly when there is no slot at that index or the slot already holds
    what the completion writes; in particular they are unchanged when the
    index is past the end of the array, and they do change whenever the
    shot at that index does not yet have its flag cleared, as a shot of
    the subsequent run waiting for its own image.  A completion that
    arrives before the next analysis reply is discarded by that reply,
    which stores its own shots whatever the array held. *)
Theorem stale_completion_hits_current_shots s k index prompt r s' :
  pending s !! k = Some (AwaitImage index prompt) →
  step s (Settled k r) = Some s' →
  shots s' !! index = completion_update r <$> shots s !! index
  ∧ length (shots s') = length (shots s)
  ∧ (∀ j, j ≠ index → shots s' !! j = shots s !! j)
  ∧ (shots s' = shots s ↔ ∀ sh, shots s !! index = Some sh → completion_update r sh = sh)
  ∧ ((length (shots s) ≤ index)%nat → shots s' = shots s)
  ∧ (∀ sh, shots s !! index = Some sh → isLoadingImage sh ≠ Some false →
           shots s' ≠ shots s)
  ∧ (∀ k2 sc data a cs l s2,
       pending s' !! k2 = Some (AwaitText sc) →
       d_analysis data = Some a → ja_casting a = Some cs → d_shots data = Some l →
       step s' (Settled k2 (TextReply (Parsed data))) = Some s2 →
       shots s2 = (set_isLoadingImage true ∘ shot_of_json) <$> l).
Proof.
  intros Hp Hstep.
  assert (∀ k2 sc data a cs l s2,
            pending s' !! k2 = Some (AwaitText sc) →
            d_analysis data = Some a → ja_casting a = Some cs → d_shots data = Some l →
            step s' (Settled k2 (TextReply (Parsed data))) = Some s2 →
            shots s2 = (set_isLoadingImage true ∘ shot_of_json) <$> l) as Hnext.
  { intros k2 sc data a cs l s2 Hk2 Ha Hc Hl Hstep2.
    rewrite (step_text_success _ _ _ _ _ _ _ Hk2 Ha Hc Hl) in Hstep2.
    by injection Hstep2 as <-. }
  assert (shots s' = alter (completion_update r) index (shots s)) as Hshots.
  { apply step_settled_inv in Hstep as (p & effs & Hp' & Hr & ->).
    rewrite Hp in Hp'. injection Hp' as <-.
    by apply resume_image_effects in Hr as [(parts & -> & ->)|[-> ->]]. }
  rewrite Hshots.
  split; [apply list_lookup_alter_eq|]. split; [apply length_alter|].
  split; [intros j Hj; by apply list_lookup_alter_ne|].
  split; [apply alter_fixed|].
  split; [apply alter_past_end|].
  split; [|exact Hnext].
  intros sh Hsh Hflag Heq.
  pose proof (proj1 (alter_fixed _ _ _) Heq sh Hsh) as Hfix.
  assert (isLoadingImage (completion_update r sh) = Some false) as Hcleared
    by (by destruct r).
  apply Hflag. congruence.
Qed.

Lemma after_restart_reached : steps (init false) restart = Some after_restart.
Proof. reflexivity. Qed.

Lemma stale_completion_hits_current_shots_witness :
  ∃ s',
    step after_restart (Settled 0 coffee_image) = Some s'
    ∧ shots s' !! 0
      = Some (mkShot "EXT. ROOFTOP - NIGHT" "Two figures face each other" "Low angle"
                     "two silhouettes on a rooftop against city lights"
                     (Some "data:image/png;base64,Q09GRkVF") (Some false))
    ∧ length (shots s') = length (shots after_restart)
    ∧ shots s' ≠ shots after_restart.
Proof.
  eexists. split; [reflexivity|].
  destruct (stale_completion_hits_current_shots after_restart 0 0
              (image_prompt (shot_of_json (mkJsonShot "INT. COFFEE SHOP - DAY"
                 "Jamie stares at his coffee" "Close-up"
                 "a cold cup of coffee by a rain-streaked window")))
              coffee_image _ eq_refl eq_refl)
    as (Hown & Hlen & _ & _ & _ & Hchanges & _).
  split; [exact Hown|]. split; [exact Hlen|].
  apply (Hchanges (mkShot "EXT. ROOFTOP - NIGHT" "Two figures face each other" "Low angle"
                          "two silhouettes on a rooftop against city lights" None (Some true)));
    [reflexivity | discriminate].
Defined.

(** ** The four states of a shot *)

Lemma settled_shot_one_state sh :
  isLoadingImage sh = Some false → exactly_one_state sh.
Proof.
  intros H. unfold exactly_one_state, states_holding,
    not_yet_requested, loading, loaded, failed.
  rewrite H. by destruct (truthy_string (imageUrl sh)).
Qed.

Lemma pristine_one_state sh : pristine sh → exactly_one_state sh.
Proof.
  intros [Hu [Hl|Hl]]; unfold exactly_one_state, states_holding,
    not_yet_requested, loading, loaded, failed; by rewrite Hu, Hl.
Qed.

Lemma pristine_shot_of_json j : pristine (shot_of_json j).
Proof. split; [reflexivity | by left]. Qed.

Lemma keeps_states_store_image index u : keeps_states (UpdateShots (store_image index u)).
Proof.
  intros l Hl. unfold store_image. apply Forall_alter; [done|].
  intros sh _ _. by apply settled_shot_one_state.
Qed.

Lemma keeps_states_clear_loading index : keeps_states (UpdateShots (clear_loading index)).
Proof.
  intros l Hl. unfold clear_loading. apply Forall_alter; [done|].
  intros sh _ _. by apply settled_shot_one_state.
Qed.

Lemma keeps_pristine_mark_loading index : keeps_pristine (UpdateShots (mark_loading index)).
Proof.
  intros l Hl. unfold mark_loading. apply Forall_alter; [done|].
  intros sh _ [Hu _]. split; [exact Hu | by right].
Qed.

Lemma run_keeps (P : Shot → Prop) (keeps : Effect → Prop) :
  (∀ e s, keeps e → Forall P (shots s) → Forall P (shots (apply s e))) →
  ∀ effs s, Forall keeps effs → Forall P (shots s) → Forall P (shots (run effs s)).
Proof.
  intros Hone effs. induction effs as [|e effs IH]; intros s Heffs Hs; [done|].
  apply Forall_cons in Heffs as [He Heffs].
  change (run (e :: effs) s) with (run effs (apply s e)).
  apply IH; [done|]. by apply Hone.
Qed.

Lemma run_keeps_states effs s :
  Forall keeps_states effs → Forall exactly_one_state (shots s) →
  Forall exactly_one_state (shots (run effs s)).
Proof.
  apply run_keeps. intros e s0 He Hs0. destruct e; simpl in *; try done. by apply He.
Qed.

Lemma run_keeps_pristine effs s :
  Forall keeps_pristine effs → Forall pristine (shots s) →
  Forall pristine (shots (run effs s)).
Proof.
  apply run_keeps. intros e s0 He Hs0. destruct e; simpl in *; try done. by apply He.
Qed.

Lemma keeps_pristine_spawn_from l : ∀ n, Forall keeps_pristine (spawn_from n l).
Proof.
  induction l as [|j l IH]; intros n; [constructor|].
  rewrite spawn_from_cons. apply Forall_app. split; [|apply IH].
  repeat constructor. apply keeps_pristine_mark_loading.
Qed.

(** Every prefix of the effects of a successful text reply. *)
Lemma success_effects_points has_aistudio sc a cs l n s :
  Forall exactly_one_state (shots s) →
  Forall exactly_one_state (shots (run (take n (success_effects has_aistudio sc a cs l)) s)).
Proof.
  intros Hs. unfold success_effects.
  destruct n as [|[|[|[|n]]]]; try done.
  - simpl. apply Forall_fmap, Forall_true. intros j.
    apply pristine_one_state, pristine_shot_of_json.
  - simpl. apply Forall_fmap, Forall_true. intros j.
    apply pristine_one_state, pristine_shot_of_json.
  - change (take (S (S (S (S n)))) ?x) with
      ([SetAnalysis (map_analysis a cs); SetShots (shot_of_json <$> l);
        SetProcessingStep 2; SetView results]
       ++ take n (spawn_from 0 l ++ generateVideo has_aistudio sc)).
    rewrite run_app.
    eapply Forall_impl; [|intros sh; apply pristine_one_state].
    apply run_keeps_pristine.
    + apply Forall_take, Forall_app. split; [apply keeps_pristine_spawn_from|].
      repeat constructor.
    + simpl. apply Forall_fmap, Forall_true. intros j. apply pristine_shot_of_json.
Qed.

Lemma handler_points s ev s1 effs n :
  Forall exactly_one_state (shots s) →
  handler s ev = Some (s1, effs) →
  Forall exactly_one_state (shots (run (take n effs) s1)).
Proof.
  intros Hs Hh.
  assert (∀ effs', Forall keeps_states effs' →
            Forall exactly_one_state (shots (run (take n effs') s))) as Hsafe.
  { intros effs' Hk. apply run_keeps_states; [by apply Forall_take | done]. }
  destruct ev as [|text| |k r|]; simpl in Hh.
  5: { destruct (view s); try discriminate. injection Hh as <- <-.
       apply Hsafe. repeat constructor. }
  - destruct (view s); try discriminate. injection Hh as <- <-.
    apply Hsafe. repeat constructor.
  - destruct (view s); try discriminate. injection Hh as <- <-.
    apply Hsafe. repeat constructor.
  - destruct (view s), (analysis s); try discriminate. injection Hh as <- <-.
    apply Hsafe. repeat constructor.
  - destruct (pending s !! k) as [p|]; simpl in Hh; [|discriminate].
    destruct (resume (aistudio s) p r) as [effs'|] eqn:Hr; simpl in Hh; [|discriminate].
    injection Hh as <- <-.
    assert (∀ effs', Forall keeps_states effs' →
              Forall exactly_one_state (shots (run (take n effs') (settle k s)))) as Hsafe'.
    { intros effs'' Hk. apply run_keeps_states; [by apply Forall_take | done]. }
    destruct p as [sc|index prompt|stage]; simpl in Hr.
    + apply processScript_resume_cases in Hr as [->|[(a & cs & ->)|(a & cs & l & ->)]].
      * apply Hsafe'. repeat constructor.
      * apply Hsafe'. repeat constructor.
      * by apply success_effects_points.
    + apply (resume_image_effects false index prompt) in Hr
        as [(parts & -> & ->)|[-> ->]]; apply Hsafe'.
      * repeat constructor. apply keeps_states_store_image.
      * repeat constructor. apply keeps_states_clear_loading.
    + destruct (generateVideo_resume_cases _ _ _ Hr) as
        [stage' -> _ | -> _ -> | u -> _ -> | op -> _ _ ->];
        apply Hsafe'; repeat constructor.
Qed.

Lemma reachable_one_state s : reachable s → Forall exactly_one_state (shots s).
Proof.
  induction 1 as [has_aistudio|s ev s' _ IH Hstep]; [constructor|].
  unfold step in Hstep.
  destruct (handler s ev) as [[s1 effs]|] eqn:Hh; simpl in Hstep; [|discriminate].
  injection Hstep as <-.
  rewrite <- (take_ge effs (length effs)) by lia.
  by eapply handler_points.
Qed.

(** C3.  In every state the component reaches, and in every state it
    passes through while a handler's updates are applied one by one, each
    shot of the shots array is in exactly one of the four states
    not-yet-requested, loading, loaded, failed, as its [isLoadingImage] and
    [imageUrl] fields define them. *)
Theorem every_shot_in_exactly_one_state s :
  reachable s ∨ during s →
  Forall (λ sh, Nat.b2n (not_yet_requested sh) + Nat.b2n (loading sh)
                + Nat.b2n (loaded sh) + Nat.b2n (failed sh) = 1) (shots s).
Proof.
  intros [Hreach|(s0 & ev & s1 & effs & n & Hreach & Hh & ->)].
  - by apply reachable_one_state.
  - eapply handler_points; [|exact Hh]. by apply reachable_one_state.
Qed.

Lemma every_shot_in_exactly_one_state_witness :
  Forall (λ sh, Nat.b2n (not_yet_requested sh) + Nat.b2n (loading sh)
                + Nat.b2n (loaded sh) + Nat.b2n (failed sh) = 1)
         (shots (run (take 5 (success_effects false DEFAULT_SCRIPT sample_analysis
                                sample_castings sample_shots))
                     (settle 0 awaiting_text))).
Proof.
  apply every_shot_in_exactly_one_state. right.
  exists awaiting_text, (Settled 0 (TextReply (Parsed sample_data))),
    (settle 0 awaiting_text),
    (success_effects false DEFAULT_SCRIPT sample_analysis sample_castings sample_shots), 5.
  split; [|split; reflexivity].
  apply (reachable_step (init false) ClickAnalyze); [constructor | reflexivity].
Defined.

(** The four states do not cover every combination of the two fields: a
    shot flagged as loading that already has an image is in none of them,
    so the invariant says something about the code. *)
Example loading_with_image_is_no_state :
  states_holding (mkShot "INT. X" "a" "wide" "v" (Some "data:image/png;base64,AA") (Some true))
  = 0.
Proof. reflexivity. Qed.

Example unflagged_with_image_is_no_state :
  states_holding (mkShot "INT. X" "a" "wide" "v" (Some "data:image/png;base64,AA") None) = 0.
Proof. reflexivity. Qed.

(** * Properties of the whole component *)

(** ** Every step is one of thirteen handler cases *)

Lemma handler_handled s ev s1 effs :
  handler s ev = Some (s1, effs) → Handled s ev s1 effs.
Proof.
  intros Hh. destruct ev as [|text| |k r|]; simpl in Hh.
  5: { destruct (view s) eqn:Hv; try discriminate. injection Hh as <- <-. by constructor. }
  - destruct (view s) eqn:Hv; try discriminate. injection Hh as <- <-. by constructor.
  - destruct (view s) eqn:Hv; try discriminate. injection Hh as <- <-. by constructor.
  - destruct (view s) eqn:Hv, (analysis s) eqn:Ha; try discriminate.
    injection Hh as <- <-. by econstructor.
  - destruct (pending s !! k) as [p|] eqn:Hp; simpl in Hh; [|discriminate].
    destruct (resume (aistudio s) p r) as [effs'|] eqn:Hr; simpl in Hh; [|discriminate].
    injection Hh as <- <-.
    destruct p as [sc|index prompt|stage]; simpl in Hr.
    + apply processScript_resume_cases in Hr as [->|[(a & cs & ->)|(a & cs & l & ->)]].
      * by eapply handled_text_catch.
      * by eapply handled_text_no_shots.
      * by eapply handled_text_success.
    + apply (resume_image_effects false index prompt) in Hr
        as [(parts & -> & ->)|[-> ->]].
      * by eapply handled_image_reply.
      * by eapply handled_image_error.
    + destruct (generateVideo_resume_cases _ _ _ Hr) as
        [stage' -> _ | -> _ -> | u -> -> -> | op -> _ _ ->].
      * by eapply handled_video_waits.
      * by eapply handled_video_throws.
      * by eapply handled_video_stored.
      * by eapply handled_video_absent.
Qed.

Lemma step_handled s ev s' :
  step s ev = Some s' → ∃ s1 effs, Handled s ev s1 effs ∧ s' = run effs s1.
Proof.
  unfold step. intros H.
  destruct (handler s ev) as [[s1 effs]|] eqn:Hh; simpl in H; [|discriminate].
  injection H as <-. exists s1, effs. split; [by apply handler_handled | reflexivity].
Qed.

Lemma run_success_effects_settled s k sc a cs l :
  run (success_effects (aistudio s) sc a cs l) (settle k s)
  = mkState results (script s) ((set_isLoadingImage true ∘ shot_of_json) <$> l)
            (Some (map_analysis a cs)) (videoUrl s) true 2 (aistudio s) (outputs s)
            (delete k (pending s) ++ calls_from 0 l
             ++ [AwaitVideo (first_video_stage (aistudio s) sc)]).
Proof.
  change (aistudio s) with (aistudio (settle k s)) at 1.
  rewrite run_success_effects. reflexivity.
Qed.

(** ** Counting calls in flight *)

Lemma count_calls_app f ps qs :
  count_calls f (ps ++ qs) = count_calls f ps + count_calls f qs.
Proof. unfold count_calls. by rewrite List.filter_app, length_app. Qed.

Lemma count_calls_delete f ps : ∀ k p,
  ps !! k = Some p →
  count_calls f (delete k ps) + Nat.b2n (f p) = count_calls f ps.
Proof.
  induction ps as [|q ps IH]; intros k p Hk; [done|].
  destruct k as [|k]; simpl in Hk.
  - injection Hk as ->. unfold count_calls. simpl.
    destruct (f p); simpl; lia.
  - specialize (IH k p Hk). unfold count_calls in *. simpl.
    destruct (f q); simpl; lia.
Qed.

Lemma count_calls_calls_from f n l :
  (∀ i pr, f (AwaitImage i pr) = false) → count_calls f (calls_from n l) = 0.
Proof.
  intros Hf. revert n. induction l as [|j l IH]; intros n; [done|].
  rewrite calls_from_cons. unfold count_calls in *. simpl. rewrite Hf. apply IH.
Qed.

Lemma count_calls_singleton f p : count_calls f [p] = Nat.b2n (f p).
Proof. unfold count_calls. simpl. by destruct (f p). Qed.

(** ** The processing view and the text call *)

Lemma text_call_count s :
  reachable s →
  (count_calls awaits_text (pending s) ≤ 1)%nat
  ∧ (view s ≠ processing → count_calls awaits_text (pending s) = 0).
Proof.
  induction 1 as [has_aistudio|s ev s' _ [IH1 IH0] Hstep];
    [split; [unfold count_calls; simpl; lia | done]|].
  apply step_handled in Hstep as (s1 & effs & Hh & ->).
  destruct Hh as [Hv|text Hv|a Hv Ha|k sc r Hp|k sc r a cs Hp|k sc r a cs l Hp
                  |k index prompt parts Hp|k index prompt Hp|k stage r stage' Hp
                  |k stage Hp|k u Hp|k stage op Hp|Hv];
    try (pose proof (count_calls_delete awaits_text _ _ _ Hp) as Hd; simpl in Hd);
    rewrite ?run_processScript_catch, ?run_no_shots_effects, ?run_success_effects_settled;
    simpl;
    rewrite ?count_calls_app, ?count_calls_singleton;
    rewrite ?count_calls_calls_from by done;
    simpl;
    try (assert (count_calls awaits_text (pending s) = 0) as Hzero
           by (apply IH0; rewrite Hv; discriminate));
    (split; [lia | intros Hnp; first [ done | lia | specialize (IH0 Hnp); lia ]]).
Qed.

Lemma text_pending_processing s k sc :
  reachable s → pending s !! k = Some (AwaitText sc) → view s = processing.
Proof.
  intros Hreach Hp. destruct (text_call_count s Hreach) as [_ Hzero].
  pose proof (count_calls_delete awaits_text _ _ _ Hp) as Hd. simpl in Hd.
  destruct (view s); [|reflexivity|]; (assert (count_calls awaits_text (pending s) = 0)
    by (by apply Hzero)); lia.
Qed.

(** Without a text call in flight the processing view is never left. *)
Lemma processing_without_call_step s ev s' :
  view s = processing → count_calls awaits_text (pending s) = 0 →
  step s ev = Some s' →
  view s' = processing ∧ count_calls awaits_text (pending s') = 0.
Proof.
  intros Hproc Hzero Hstep.
  apply step_handled in Hstep as (s1 & effs & Hh & ->).
  destruct Hh as [Hv|text Hv|a Hv Ha|k sc r Hp|k sc r a cs Hp|k sc r a cs l Hp
                  |k index prompt parts Hp|k index prompt Hp|k stage r stage' Hp
                  |k stage Hp|k u Hp|k stage op Hp|Hv];
    try congruence;
    pose proof (count_calls_delete awaits_text _ _ _ Hp) as Hd; simpl in Hd;
    try lia;
    simpl; rewrite ?count_calls_app, ?count_calls_singleton; simpl;
    (split; [exact Hproc | lia]).
Qed.

(** X1.  At most one text-analysis call is in flight, and only while the
    processing view is shown: the button cannot start a second analysis
    before the first has answered.  The processing view can also be shown
    with no text call in flight (the constructor of line 98 threw after
    the view was set); from such a state no event leads out of the
    processing view. *)
Theorem at_most_one_text_call s :
  reachable s →
  (count_calls awaits_text (pending s) ≤ 1)%nat
  ∧ (view s ≠ processing → count_calls awaits_text (pending s) = 0)
  ∧ (∀ n script0, pending s !! n = Some (AwaitText script0) → view s = processing)
  ∧ (view s = processing → count_calls awaits_text (pending s) = 0 →
     ∀ evs s', steps s evs = Some s' →
       view s' = processing ∧ count_calls awaits_text (pending s') = 0).
Proof.
  intros Hreach. destruct (text_call_count s Hreach) as [Hone Hzero].
  split; [exact Hone|]. split; [exact Hzero|]. split.
  - intros n script0 Hn. by eapply text_pending_processing.
  - clear. intros Hproc Hnone evs. revert s Hproc Hnone.
    induction evs as [|ev evs IH]; intros s Hproc Hnone s' Hsteps.
    + by injection Hsteps as <-.
    + simpl in Hsteps. destruct (step s ev) as [s1|] eqn:Hstep; [|discriminate].
      destruct (processing_without_call_step s ev s1 Hproc Hnone Hstep) as [Hp1 Hn1].
      by apply (IH s1).
Qed.

Lemma at_most_one_text_call_witness :
  reachable no_key_clicked
  ∧ view no_key_clicked = processing
  ∧ count_calls awaits_text (pending no_key_clicked) = 0
  ∧ (∀ n script0, pending awaiting_text !! n = Some (AwaitText script0) →
                  view awaiting_text = processing)
  ∧ ∀ evs s', steps no_key_clicked evs = Some s' →
      view s' = processing ∧ count_calls awaits_text (pending s') = 0.
Proof.
  assert (reachable no_key_clicked) as Hreach
    by (apply (reachable_step (init false) ClickAnalyzeNoKey); [constructor | reflexivity]).
  split; [exact Hreach|]. split; [reflexivity|]. split; [reflexivity|]. split.
  - apply (at_most_one_text_call awaiting_text awaiting_text_reachable).
  - apply (at_most_one_text_call no_key_clicked Hreach); reflexivity.
Defined.

(** Splits a step into the thirteen handler cases and unfolds the state
    each one leads to. *)
Ltac step_cases Hstep :=
  let s1 := fresh "s1" in
  let effs := fresh "effs" in
  let Hh := fresh "Hh" in
  apply step_handled in Hstep as (s1 & effs & Hh & ->);
  destruct Hh as [Hv|text Hv|a Hv Ha|k sc r Hp|k sc r a cs Hp|k sc r a cs l Hp
                  |k index prompt parts Hp|k index prompt Hp|k stage r stage' Hp
                  |k stage Hp|k u Hp|k stage op Hp|Hv];
  rewrite ?run_processScript_catch, ?run_no_shots_effects, ?run_success_effects_settled;
  simpl.

(** X2.  The results view is never shown without an analysis: in every
    reachable state the component renders the input view, the processing
    view or the full results view, never an empty panel. *)
Theorem results_view_never_blank s :
  reachable s → (view s = results → is_Some (analysis s)) ∧ render s ≠ Nothing.
Proof.
  intros Hreach.
  assert (view s = results → is_Some (analysis s)) as Hinv.
  { induction Hreach as [has_aistudio|s ev s' _ IH Hstep]; [discriminate|].
    step_cases Hstep; try discriminate; try exact IH; eauto. }
  split; [exact Hinv|]. unfold render.
  destruct (view s); try discriminate.
  destruct (Hinv eq_refl) as [a ->]. discriminate.
Qed.

Lemma results_view_never_blank_witness :
  (view showing_results = results → is_Some (analysis showing_results))
  ∧ render showing_results ≠ Nothing.
Proof. apply results_view_never_blank, showing_results_reachable. Defined.

(** X3.  The processing view only ever shows step 1: [processingStep] is
    set to 2 in the same handler that leaves the processing view and is
    never set to 3, so the second and third progress lines are never
    highlighted. *)
Theorem processing_view_shows_step_one s :
  reachable s →
  (processingStep s ≤ 2)%nat
  ∧ (view s = processing → processingStep s = 1)
  ∧ ∀ n, render s = ProcessingView n → n = 1.
Proof.
  intros Hreach.
  assert ((processingStep s ≤ 2)%nat ∧ (view s = processing → processingStep s = 1)) as [H2 H1].
  { induction Hreach as [has_aistudio|s ev s' _ IH Hstep].
    - split; [simpl; lia | discriminate].
    - pose proof Hstep as Hstep0.
      step_cases Hstep; try (split; [lia | done]); try exact IH.
      all: try (split; [apply IH | discriminate]). }
  split; [exact H2|]. split; [exact H1|].
  intros n. unfold render. destruct (view s) eqn:Hv; try discriminate.
  - intros [= <-]. by apply H1.
  - destruct (analysis s); discriminate.
Qed.

Lemma processing_view_shows_step_one_witness :
  (processingStep awaiting_text ≤ 2)%nat
  ∧ (view awaiting_text = processing → processingStep awaiting_text = 1)
  ∧ ∀ n, render awaiting_text = ProcessingView n → n = 1.
Proof. apply processing_view_shows_step_one, awaiting_text_reachable. Defined.

(** ** What a step can and cannot do *)

(** X5.  [videoUrl] is written by one step only, the one in which the
    blob of a fetched video arrives; no step clears it.  So a video URL,
    once stored, stays stored through every later event, a new analysis
    included. *)
Theorem video_url_is_never_cleared s evs s' url :
  steps s evs = Some s' →
  videoUrl s = Some url →
  is_Some (videoUrl s')
  ∧ (videoUrl s' = Some url
     ∨ ∃ n url', Settled n (BlobReply url') ∈ evs ∧ videoUrl s' = Some url').
Proof.
  revert s url. induction evs as [|ev evs IH]; intros s url Hsteps Hu.
  - injection Hsteps as <-. split; [by exists url | by left].
  - simpl in Hsteps. destruct (step s ev) as [s1|] eqn:Hstep; [|discriminate].
    simpl in Hsteps.
    assert (videoUrl s1 = Some url
            ∨ ∃ n url', ev = Settled n (BlobReply url') ∧ videoUrl s1 = Some url') as Hone.
    { step_cases Hstep; eauto. }
    destruct Hone as [H1|(n & url' & -> & H1)];
      destruct (IH s1 _ Hsteps H1) as [Hsome [Hkeep|(n2 & url2 & Hin & Hset)]].
    + split; [done|]. by left.
    + split; [done|]. right. exists n2, url2. split; [by apply elem_of_cons; right | done].
    + split; [done|]. right. exists n, url'. split; [by apply elem_of_cons; left | done].
    + split; [done|]. right. exists n2, url2. split; [by apply elem_of_cons; right | done].
Qed.

(** X6.  Whenever [isVideoLoading] is true (the caption reads
    "Generando video con Veo..."), a video call is in flight. *)
Theorem loading_flag_means_video_in_flight s :
  reachable s →
  isVideoLoading s = true →
  ∃ stage, AwaitVideo stage ∈ pending s.
Proof.
  intros Hreach Hflag.
  assert (1 ≤ count_calls awaits_video (pending s))%nat as Hcount.
  { revert Hflag. induction Hreach as [has_aistudio|s ev s' _ IH Hstep]; [discriminate|].
    step_cases Hstep;
      try (pose proof (count_calls_delete awaits_video _ _ _ Hp) as Hd; simpl in Hd);
      rewrite ?count_calls_app, ?count_calls_singleton; simpl;
      intros Hflag; try discriminate; try specialize (IH Hflag); lia. }
  unfold count_calls in Hcount.
  destruct (List.filter awaits_video (pending s)) as [|p ps] eqn:Hf; [simpl in Hcount; lia|].
  assert (List.In p (List.filter awaits_video (pending s))) as Hin
    by (rewrite Hf; by left).
  apply List.filter_In in Hin as [Hin Hp].
  destruct p as [| |stage]; try discriminate.
  exists stage. by apply list_elem_of_In.
Qed.

Lemma loading_flag_means_video_in_flight_witness :
  ∃ stage, AwaitVideo stage ∈ pending showing_results.
Proof.
  apply loading_flag_means_video_in_flight; [apply showing_results_reachable | reflexivity].
Defined.

Lemma video_url_is_never_cleared_witness :
  steps with_video second_analysis = Some after_second_analysis
  ∧ view after_second_analysis = results
  ∧ is_Some (videoUrl after_second_analysis)
  ∧ (videoUrl after_second_analysis = Some "blob:first-run"
     ∨ ∃ n url', Settled n (BlobReply url') ∈ second_analysis
                 ∧ videoUrl after_second_analysis = Some url').
Proof.
  split; [reflexivity|]. split; [reflexivity|].
  apply (video_url_is_never_cleared with_video second_analysis); reflexivity.
Defined.

(** X7.  An alert is raised by one handler only: the catch branch of
    processScript.  A step that shows an alert settles a text-analysis
    call, shows exactly the one message, and ends in the input view; image
    and video failures write to the console and never alert. *)
Theorem alert_only_after_text_failure s ev s' :
  step s ev = Some s' →
  ∃ written,
    outputs s' = outputs s ++ written
    ∧ ∀ msg, Alert msg ∈ written →
        msg = "Error processing script. Please try again."
        ∧ view s' = input
        ∧ ∃ n reply script, ev = Settled n reply ∧ pending s !! n = Some (AwaitText script).
Proof.
  intros Hstep. step_cases Hstep.
  all: try (exists []; split; [by rewrite app_nil_r|];
            intros msg Hin; by apply elem_of_nil in Hin).
  - eexists. split; [reflexivity|]. intros msg Hin.
    apply elem_of_cons in Hin as [[=]|Hin].
    apply elem_of_cons in Hin as [[= ->]|Hin]; [|by apply elem_of_nil in Hin]. eauto 8.
  - eexists. split; [reflexivity|]. intros msg Hin.
    apply elem_of_cons in Hin as [[=]|Hin].
    apply elem_of_cons in Hin as [[= ->]|Hin]; [|by apply elem_of_nil in Hin]. eauto 8.
  - exists [ConsoleError "Image gen error"]. split; [reflexivity|]. intros msg Hin.
    apply elem_of_cons in Hin as [[=]|Hin]. by apply elem_of_nil in Hin.
  - exists [ConsoleError "Video generation failed"]. split; [reflexivity|]. intros msg Hin.
    apply elem_of_cons in Hin as [[=]|Hin]. by apply elem_of_nil in Hin.
Qed.

Lemma alert_only_after_text_failure_witness :
  ∃ written,
    outputs (default awaiting_text (step awaiting_text (Settled 0 Rejected)))
    = outputs awaiting_text ++ written
    ∧ ∀ msg, Alert msg ∈ written →
        msg = "Error processing script. Please try again."
        ∧ view (default awaiting_text (step awaiting_text (Settled 0 Rejected))) = input
        ∧ ∃ n reply script,
            Settled 0 Rejected = Settled n reply
            ∧ pending awaiting_text !! n = Some (AwaitText script).
Proof.
  apply (alert_only_after_text_failure awaiting_text (Settled 0 Rejected)). reflexivity.
Defined.

(** X8.  The view moves along four arrows only: input to processing (the
    analyse button), processing to results or back to input (the text
    reply), and results to input (the link).  Image and video replies
    never change the view. *)
Theorem view_moves_along_four_arrows s ev s' :
  reachable s →
  step s ev = Some s' →
  (view s' = view s ∨ view_arrow (view s) (view s') = true)
  ∧ (∀ n reply p, ev = Settled n reply → pending s !! n = Some p →
                  awaits_text p = false → view s' = view s).
Proof.
  intros Hreach Hstep.
  assert (∀ n script, pending s !! n = Some (AwaitText script) → view s = processing)
    as Htext by (intros; by eapply text_pending_processing).
  step_cases Hstep.
  all: try (split; [by left|]; intros; reflexivity).
  all: try (split; [right; rewrite Hv; reflexivity|]; intros; discriminate).
  all: split; [right; rewrite (Htext _ _ Hp); reflexivity|];
    intros n reply p [= <- <-] Hn Hnot; rewrite Hp in Hn; injection Hn as <-;
    discriminate.
Qed.

Lemma view_moves_along_four_arrows_witness :
  (view (default awaiting_text (step awaiting_text (Settled 0 Rejected)))
   = view awaiting_text
   ∨ view_arrow (view awaiting_text)
       (view (default awaiting_text (step awaiting_text (Settled 0 Rejected)))) = true)
  ∧ (∀ n reply p, Settled 0 Rejected = Settled n reply →
                  pending awaiting_text !! n = Some p →
                  awaits_text p = false →
                  view (default awaiting_text (step awaiting_text (Settled 0 Rejected)))
                  = view awaiting_text).
Proof.
  apply (view_moves_along_four_arrows awaiting_text (Settled 0 Rejected));
    [apply awaiting_text_reachable | reflexivity].
Defined.

(** ** What an image reply puts on the storyboard *)

Lemma first_inline_skips pre m d post :
  Forall no_inline pre →
  first_inline (pre ++ mkPart (Some (m, d)) :: post) = "data:" +:+ m +:+ ";base64," +:+ d.
Proof.
  induction 1 as [|p pre Hp _ IH]; [reflexivity|].
  simpl. unfold no_inline in Hp. rewrite Hp. exact IH.
Qed.

Lemma first_inline_none ps : Forall no_inline ps → first_inline ps = "".
Proof.
  induction 1 as [|p ps Hp _ IH]; [reflexivity|].
  simpl. unfold no_inline in Hp. rewrite Hp. exact IH.
Qed.

(** X9.  An image reply clears the loading flag of the shot at its index.
    The image stored is the data URL of the first part that carries inline
    data, and the frame then shows it.  A reply without parts, or whose
    parts carry no inline data, stores the empty string: the frame shows
    "Pendiente" without a spinner, as it does after an error. *)
Theorem image_reply_frame s k index prompt parts sh :
  pending s !! k = Some (AwaitImage index prompt) →
  shots s !! index = Some sh →
  ∃ s' sh',
    step s (Settled k (ImageReply parts)) = Some s'
    ∧ shots s' !! index = Some sh'
    ∧ isLoadingImage sh' = Some false
    ∧ (∀ pre m d post,
         parts = Some (pre ++ mkPart (Some (m, d)) :: post) → Forall no_inline pre →
         imageUrl sh' = Some ("data:" +:+ m +:+ ";base64," +:+ d)
         ∧ render_shot sh' = ShotImage ("data:" +:+ m +:+ ";base64," +:+ d))
    ∧ (parts = None ∨ (∃ ps, parts = Some ps ∧ Forall no_inline ps) →
       imageUrl sh' = Some ""
       ∧ render_shot sh' = ShotPlaceholder false "Pendiente").
Proof.
  intros Hp Hsh.
  exists (run [UpdateShots (store_image index (extract_image parts))] (settle k s)),
    (set_isLoadingImage false (set_imageUrl (extract_image parts) sh)).
  split; [by eapply step_settled|]. split.
  { simpl. unfold store_image. by rewrite list_lookup_alter_eq, Hsh. }
  split; [reflexivity|]. split.
  - intros pre m d post -> Hpre. simpl. rewrite (first_inline_skips _ _ _ _ Hpre).
    split; reflexivity.
  - intros [->|(ps & -> & Hps)]; simpl; rewrite ?(first_inline_none _ Hps);
      split; reflexivity.
Qed.

Lemma image_reply_frame_witness :
  ∃ s' sh',
    step showing_results (Settled 0 (ImageReply (Some [mkPart None]))) = Some s'
    ∧ shots s' !! 0 = Some sh'
    ∧ isLoadingImage sh' = Some false
    ∧ imageUrl sh' = Some ""
    ∧ render_shot sh' = ShotPlaceholder false "Pendiente".
Proof.
  destruct (image_reply_frame showing_results 0 0
              (image_prompt (shot_of_json (mkJsonShot "INT. COFFEE SHOP - DAY"
                 "Jamie stares at his coffee" "Close-up"
                 "a cold cup of coffee by a rain-streaked window")))
              (Some [mkPart None])
              (mkShot "INT. COFFEE SHOP - DAY" "Jamie stares at his coffee" "Close-up"
                      "a cold cup of coffee by a rain-streaked window" None (Some true))
              eq_refl eq_refl)
    as (s' & sh' & Hstep & Hsh & Hflag & _ & Hnone).
  exists s', sh'. split; [exact Hstep|]. split; [exact Hsh|]. split; [exact Hflag|].
  apply Hnone. right. eexists. split; [reflexivity|]. repeat constructor.
Defined.

(** ** Image replies for different shots may arrive in either order *)

Lemma delete_delete_lt {A} (l : list A) : ∀ i j,
  (i < j)%nat → delete (j - 1) (delete i l) = delete i (delete j l).
Proof.
  induction l as [|x l IH]; intros i j Hij; [by destruct i, j|].
  destruct j as [|j]; [lia|]. destruct i as [|i]; simpl.
  - by rewrite Nat.sub_0_r.
  - destruct j as [|j]; [lia|]. simpl. f_equal.
    specialize (IH i (S j)). simpl in IH. rewrite Nat.sub_0_r in IH. apply IH. lia.
Qed.

Lemma image_outcome_effects index r :
  image_outcome r →
  ∃ written f,
    generateShotImage_resume index r = Some (written ++ [UpdateShots (alter f index)])
    ∧ (written = [] ∨ written = [Emit (ConsoleError "Image gen error")]).
Proof.
  intros [->|[parts ->]].
  - exists [Emit (ConsoleError "Image gen error")], (set_isLoadingImage false). eauto.
  - exists [], (λ sh, set_isLoadingImage false (set_imageUrl (extract_image parts) sh)).
    eauto.
Qed.

Lemma run_image_outcome written f index s :
  written = [] ∨ written = [Emit (ConsoleError "Image gen error")] →
  run (written ++ [UpdateShots (alter f index)]) s
  = mkState (view s) (script s) (alter f index (shots s)) (analysis s) (videoUrl s)
            (isVideoLoading s) (processingStep s) (aistudio s)
            (outputs s ++ omap (λ e, match e with Emit o => Some o | _ => None end) written)
            (pending s).
Proof. intros [->| ->]; simpl; [by rewrite app_nil_r | reflexivity]. Qed.

(** X10.  Two image calls in flight for different indices may settle in
    either order, each with a reply or an error: the resulting state is
    the same.  The completions need no coordination. *)
Theorem image_completions_commute s k1 k2 i1 i2 p1 p2 r1 r2 :
  (k1 < k2)%nat →
  pending s !! k1 = Some (AwaitImage i1 p1) →
  pending s !! k2 = Some (AwaitImage i2 p2) →
  i1 ≠ i2 →
  image_outcome r1 → image_outcome r2 →
  ∃ s', steps s [Settled k1 r1; Settled (k2 - 1) r2] = Some s'
        ∧ steps s [Settled k2 r2; Settled k1 r1] = Some s'.
Proof.
  intros Hlt H1 H2 Hne Hr1 Hr2.
  destruct (image_outcome_effects i1 r1 Hr1) as (w1 & f1 & He1 & Hw1).
  destruct (image_outcome_effects i2 r2 Hr2) as (w2 & f2 & He2 & Hw2).
  assert (delete k1 (pending s) !! (k2 - 1) = Some (AwaitImage i2 p2)) as H2'.
  { rewrite list_lookup_delete_ge by lia. replace (S (k2 - 1)) with k2 by lia. exact H2. }
  assert (delete k2 (pending s) !! k1 = Some (AwaitImage i1 p1)) as H1'.
  { by rewrite list_lookup_delete_lt. }
  eexists. split.
  - cbn [steps]. erewrite step_settled; [|exact H1|exact He1]. cbn [mbind option_bind].
    rewrite (run_image_outcome _ _ _ _ Hw1).
    erewrite step_settled; [|exact H2'|exact He2]. cbn [mbind option_bind].
    rewrite (run_image_outcome _ _ _ _ Hw2). simpl. reflexivity.
  - cbn [steps]. erewrite step_settled; [|exact H2|exact He2]. cbn [mbind option_bind].
    rewrite (run_image_outcome _ _ _ _ Hw2).
    erewrite step_settled; [|exact H1'|exact He1]. cbn [mbind option_bind].
    rewrite (run_image_outcome _ _ _ _ Hw1). simpl.
    rewrite delete_delete_lt by exact Hlt.
    rewrite (list_alter_alter_ne f2 f1) by congruence.
    do 2 f_equal. rewrite <- !app_assoc. f_equal.
    destruct Hw1 as [-> | ->], Hw2 as [-> | ->]; reflexivity.
Qed.

Lemma image_completions_commute_witness :
  ∃ s', steps showing_results [Settled 0 Rejected; Settled (1 - 1) coffee_image] = Some s'
        ∧ steps showing_results [Settled 1 coffee_image; Settled 0 Rejected] = Some s'.
Proof.
  apply (image_completions_commute showing_results 0 1 0 1
           (image_prompt (shot_of_json (mkJsonShot "INT. COFFEE SHOP - DAY"
              "Jamie stares at his coffee" "Close-up"
              "a cold cup of coffee by a rain-streaked window")))
           (image_prompt (shot_of_json (mkJsonShot "INT. COFFEE SHOP - DAY"
              "A woman enters" "Wide shot" "a woman in a red trench coat at the door")))
           Rejected coffee_image);
    [lia | reflexivity | reflexivity | lia | by left | right; by eexists].
Defined.

(** ** Within one run the spinner tells the truth *)

Lemma steps_reachable evs : ∀ s s',
  reachable s → steps s evs = Some s' → reachable s'.
Proof.
  induction evs as [|ev evs IH]; intros s s' Hreach Hsteps.
  - by injection Hsteps as <-.
  - simpl in Hsteps. destruct (step s ev) as [s1|] eqn:Hstep; [|discriminate].
    eapply IH; [|exact Hsteps]. by eapply reachable_step.
Qed.

Lemma image_calls_count i ps : image_calls i ps = count_calls (is_image_call i) ps.
Proof. reflexivity. Qed.

Lemma flagged_loading_marked s l i :
  shots s = (set_isLoadingImage true ∘ shot_of_json) <$> l →
  Nat.b2n (flagged_loading s i) = if decide (i < length l)%nat then 1 else 0.
Proof.
  intros Hs. unfold flagged_loading. rewrite Hs, list_lookup_fmap.
  destruct (l !! i) as [j|] eqn:Hi; simpl.
  - apply lookup_lt_Some in Hi. by case_decide.
  - apply lookup_ge_None in Hi. case_decide; [lia | reflexivity].
Qed.

Lemma flagged_loading_settled s1 s k index f i :
  pending s !! k = Some s1 →
  is_image_call index s1 = true →
  (∀ sh, isLoadingImage (f sh) = Some false) →
  image_calls index (pending s) = Nat.b2n (flagged_loading s index) →
  image_calls i (pending s) = Nat.b2n (flagged_loading s i) →
  image_calls i (delete k (pending s))
  = Nat.b2n (match alter f index (shots s) !! i with
             | Some sh => truthy_bool (isLoadingImage sh)
             | None => false
             end).
Proof.
  intros Hp Hcall Hf Hidx Hi.
  pose proof (count_calls_delete (is_image_call i) _ _ _ Hp) as Hd.
  rewrite <- !image_calls_count in Hd.
  destruct (decide (index = i)) as [<-|Hne].
  - rewrite Hcall in Hd. simpl in Hd.
    rewrite list_lookup_alter_eq.
    destruct (shots s !! index) as [sh|] eqn:Hsh; simpl.
    + rewrite Hf. simpl. unfold flagged_loading in Hidx. rewrite Hsh in Hidx.
      destruct (truthy_bool (isLoadingImage sh)); simpl in Hidx; lia.
    + unfold flagged_loading in Hidx. rewrite Hsh in Hidx. simpl in Hidx. lia.
  - rewrite list_lookup_alter_ne by done.
    assert (is_image_call i s1 = false) as Hnot.
    { destruct s1 as [|index' pr|]; try reflexivity. simpl in *.
      apply Nat.eqb_eq in Hcall as ->. by apply Nat.eqb_neq. }
    rewrite Hnot in Hd. simpl in Hd. unfold flagged_loading in Hi. lia.
Qed.

Lemma calls_match_flags_step s ev s' :
  reachable s → calls_match_flags s → ev ≠ ClickAnalyzeAnother →
  step s ev = Some s' → calls_match_flags s'.
Proof.
  intros Hreach [Hsync Hnone] Hev Hstep.
  assert (∀ n script, pending s !! n = Some (AwaitText script) → view s = processing)
    as Htext by (intros; by eapply text_pending_processing).
  assert (∀ n p i, pending s !! n = Some p → is_image_call i p = false →
            image_calls i (delete n (pending s)) = image_calls i (pending s)) as Hother.
  { intros n p i Hn Hnot.
    pose proof (count_calls_delete (is_image_call i) _ _ _ Hn) as Hd.
    rewrite Hnot in Hd. simpl in Hd. rewrite !image_calls_count. lia. }
  assert (∀ n p i, pending s !! n = Some p → image_calls i (pending s) = 0 →
            image_calls i (delete n (pending s)) = 0) as Hzero.
  { intros n p i Hn Hz.
    pose proof (count_calls_delete (is_image_call i) _ _ _ Hn) as Hd.
    rewrite !image_calls_count in *. lia. }
  step_cases Hstep; unfold calls_match_flags, flagged_loading; simpl.
  - split; [|intros _]; intros i; rewrite image_calls_count, count_calls_app,
      count_calls_singleton, <- image_calls_count; simpl;
      [rewrite Hsync | rewrite Hnone by congruence]; unfold flagged_loading; lia.
  - split; [exact Hsync|exact Hnone].
  - done.
  - assert (view s ≠ results) as Hnr by (rewrite (Htext _ _ Hp); discriminate).
    split; [|intros _]; intros i; rewrite (Hzero _ _ _ Hp) by by apply Hnone.
    + rewrite <- (Hnone Hnr i). apply Hsync.
    + reflexivity.
  - assert (view s ≠ results) as Hnr by (rewrite (Htext _ _ Hp); discriminate).
    split; [|intros _]; intros i; rewrite (Hzero _ _ _ Hp) by by apply Hnone.
    + by destruct i.
    + reflexivity.
  - assert (view s ≠ results) as Hnr by (rewrite (Htext _ _ Hp); discriminate).
    split; [|done]. intros i.
    rewrite image_calls_count, !count_calls_app, count_calls_singleton,
      <- !image_calls_count. simpl.
    rewrite (Hzero _ _ _ Hp) by by apply Hnone.
    rewrite image_calls_calls_from, list_lookup_fmap.
    destruct (l !! i) as [j|] eqn:Hi; simpl.
    + apply lookup_lt_Some in Hi. case_decide; [reflexivity | lia].
    + apply lookup_ge_None in Hi. case_decide; [lia | reflexivity].
  - split.
    + intros i. unfold store_image.
      eapply flagged_loading_settled; [exact Hp| | |apply Hsync|apply Hsync].
      * simpl. apply Nat.eqb_refl.
      * reflexivity.
    + intros Hnr i. apply (Hzero _ _ _ Hp). by apply Hnone.
  - split.
    + intros i. unfold clear_loading.
      eapply flagged_loading_settled; [exact Hp| | |apply Hsync|apply Hsync].
      * simpl. apply Nat.eqb_refl.
      * reflexivity.
    + intros Hnr i. apply (Hzero _ _ _ Hp). by apply Hnone.
  - split; [|intros Hnr]; intros i;
      rewrite image_calls_count, count_calls_app, count_calls_singleton,
        <- image_calls_count; simpl; rewrite (Hother _ _ _ Hp) by done;
      [rewrite Hsync | rewrite Hnone by done]; unfold flagged_loading; lia.
  - split; [|intros Hnr]; intros i; rewrite (Hother _ _ _ Hp) by done;
      [apply Hsync | by apply Hnone].
  - split; [|intros Hnr]; intros i; rewrite (Hother _ _ _ Hp) by done;
      [apply Hsync | by apply Hnone].
  - split; [|intros Hnr]; intros i; rewrite (Hother _ _ _ Hp) by done;
      [apply Hsync | by apply Hnone].
  - split; [exact Hsync|]. intros _ i. apply Hnone. congruence.
Qed.

Lemma calls_match_flags_steps evs : ∀ s s',
  reachable s → calls_match_flags s → ClickAnalyzeAnother ∉ evs →
  steps s evs = Some s' → calls_match_flags s'.
Proof.
  induction evs as [|ev evs IH]; intros s s' Hreach Hinv Hno Hsteps.
  - by injection Hsteps as <-.
  - simpl in Hsteps. destruct (step s ev) as [s1|] eqn:Hstep; [|discriminate].
    apply not_elem_of_cons in Hno as [Hne Hno].
    eapply (IH s1); [by eapply reachable_step| |exact Hno|exact Hsteps].
    apply (calls_match_flags_step s ev s1 Hreach Hinv); [by intros -> | exact Hstep].
Qed.

Lemma flagged_shot_renders_spinner sh :
  exactly_one_state sh →
  (render_shot sh = ShotPlaceholder true "Generando imagen..."
   ↔ truthy_bool (isLoadingImage sh) = true).
Proof.
  unfold exactly_one_state, states_holding, not_yet_requested, loading, loaded, failed,
    render_shot.
  destruct (isLoadingImage sh) as [[|]|]; simpl;
    destruct (truthy_string (imageUrl sh)); simpl;
    destruct (imageUrl sh); simpl; intros H; split; intros H'; try done; try lia.
Qed.

(** X12.  From a fresh page, and for as long as the user does not go back
    from the results view, the loading flags and the calls in flight
    agree: for every index, one image call is in flight if the shot there
    is flagged as loading and none otherwise, and a frame shows the
    spinner exactly when its image call is in flight. *)
Theorem spinner_means_call_in_flight has_aistudio evs s :
  steps (init has_aistudio) evs = Some s →
  ClickAnalyzeAnother ∉ evs →
  ∀ i,
    image_calls i (pending s) = Nat.b2n (flagged_loading s i)
    ∧ ∀ sh, shots s !! i = Some sh →
        (render_shot sh = ShotPlaceholder true "Generando imagen..."
         ↔ image_calls i (pending s) = 1).
Proof.
  intros Hsteps Hno i.
  assert (reachable s) as Hreach by (eapply steps_reachable; [constructor | exact Hsteps]).
  assert (calls_match_flags s) as [Hsync _].
  { eapply calls_match_flags_steps; [constructor| |exact Hno|exact Hsteps].
    split; [|intros _]; intros n; by destruct n. }
  split; [apply Hsync|]. intros sh Hsh.
  rewrite Hsync. unfold flagged_loading. rewrite Hsh.
  pose proof (reachable_one_state s Hreach) as Hone.
  rewrite Forall_lookup in Hone.
  rewrite (flagged_shot_renders_spinner sh (Hone _ _ Hsh)).
  destruct (truthy_bool (isLoadingImage sh)); simpl; split; intros; done.
Qed.

Lemma spinner_means_call_in_flight_witness :
  image_calls 0 (pending showing_results) = Nat.b2n (flagged_loading showing_results 0)
  ∧ ∀ sh, shots showing_results !! 0 = Some sh →
      (render_shot sh = ShotPlaceholder true "Generando imagen..."
       ↔ image_calls 0 (pending showing_results) = 1).
Proof.
  apply (spinner_means_call_in_flight false
           [ClickAnalyze; Settled 0 (TextReply (Parsed sample_data))] showing_results).
  - reflexivity.
  - intros Hin. repeat (apply elem_of_cons in Hin as [[=]|Hin]). by apply elem_of_nil in Hin.
Defined.

(** ** Failure of an image call *)

Lemma loading_flag_without_image s :
  reachable s →
  Forall (λ sh, isLoadingImage sh = Some true → imageUrl sh = None) (shots s).
Proof.
  induction 1 as [has_aistudio|s ev s' _ IH Hstep]; [constructor|].
  step_cases Hstep; try exact IH.
  - constructor.
  - apply Forall_fmap, Forall_true. intros j _. reflexivity.
  - unfold store_image. apply Forall_alter; [exact IH|]. intros sh _ _ [=].
  - unfold clear_loading. apply Forall_alter; [exact IH|]. intros sh _ _ [=].
Qed.

(** C6, as stated, fails.  After [restart] the image call of the first run
    for index 0 completes and writes its image into the one shot of the
    second run.  Then the second run's own call for that shot (position 2)
    throws: the flag is cleared, but the slot is not left without an image,
    it shows the picture made for the first run. *)
Lemma own_image_failure_keeps_stale_image :
  (s ← steps (init false) (restart ++ [Settled 0 coffee_image]);
   Some (pending s !! 2, imageUrl <$> shots s !! 0))
  = Some (Some (AwaitImage 0 "Cinematic storyboard sketch, loose charcoal style. two silhouettes on a rooftop against city lights. Angle: Low angle"),
          Some (Some "data:image/png;base64,Q09GRkVF"))
  ∧ (s ← steps (init false) (restart ++ [Settled 0 coffee_image; Settled 2 Rejected]);
     Some (shots s, render_shot <$> shots s, outputs s))
    = Some ([mkShot "EXT. ROOFTOP - NIGHT" "Two figures face each other" "Low angle"
                    "two silhouettes on a rooftop against city lights"
                    (Some "data:image/png;base64,Q09GRkVF") (Some false)],
            [ShotImage "data:image/png;base64,Q09GRkVF"],
            [ConsoleError "Image gen error"]).
Proof. split; reflexivity. Qed.

(** C6, as amended.  When the image call for a shot throws, the error is
    logged, the flag [isLoadingImage] of the shot at the call's index
    becomes [false], its [imageUrl] is not assigned and keeps the value it
    had, every other field of the shot is kept, and the call leaves the
    calls in flight without a new one being started.  From a fresh page
    and for as long as the user does not go back from the results view,
    the shot at the index of an image call in flight exists, is flagged as
    loading and has no [imageUrl]: there the failure leaves the slot
    without an image and the frame shows "Pendiente" without a spinner. *)
Theorem image_failure_clears_flag_only :
  (∀ s k index prompt sh,
     pending s !! k = Some (AwaitImage index prompt) →
     shots s !! index = Some sh →
     ∃ s' sh',
       step s (Settled k Rejected) = Some s'
       ∧ shots s' !! index = Some sh'
       ∧ sh' = set_isLoadingImage false sh
       ∧ isLoadingImage sh' = Some false
       ∧ imageUrl sh' = imageUrl sh
       ∧ outputs s' = outputs s ++ [ConsoleError "Image gen error"]
       ∧ pending s' = delete k (pending s))
  ∧ (∀ has_aistudio evs s k index prompt,
       steps (init has_aistudio) evs = Some s →
       ClickAnalyzeAnother ∉ evs →
       pending s !! k = Some (AwaitImage index prompt) →
       ∃ sh s' sh',
         shots s !! index = Some sh
         ∧ isLoadingImage sh = Some true ∧ imageUrl sh = None
         ∧ step s (Settled k Rejected) = Some s'
         ∧ shots s' !! index = Some sh'
         ∧ isLoadingImage sh' = Some false ∧ imageUrl sh' = None
         ∧ render_shot sh' = ShotPlaceholder false "Pendiente"
         ∧ outputs s' = outputs s ++ [ConsoleError "Image gen error"]
         ∧ pending s' = delete k (pending s)).
Proof.
  assert (∀ s k index prompt sh,
            pending s !! k = Some (AwaitImage index prompt) →
            shots s !! index = Some sh →
            step s (Settled k Rejected)
            = Some (run [Emit (ConsoleError "Image gen error");
                         UpdateShots (clear_loading index)] (settle k s))
            ∧ shots (run [Emit (ConsoleError "Image gen error");
                          UpdateShots (clear_loading index)] (settle k s)) !! index
              = Some (set_isLoadingImage false sh)) as Hfail.
  { intros s k index prompt sh Hp Hsh. split.
    - eapply step_settled; [exact Hp | reflexivity].
    - simpl. unfold clear_loading. by rewrite list_lookup_alter_eq, Hsh. }
  split.
  - intros s k index prompt sh Hp Hsh.
    destruct (Hfail s k index prompt sh Hp Hsh) as [Hstep Hslot].
    eexists. exists (set_isLoadingImage false sh).
    split; [exact Hstep|]. split; [exact Hslot|]. by repeat split.
  - intros has_aistudio evs s k index prompt Hsteps Hno Hp.
    assert (reachable s) as Hreach by (eapply steps_reachable; [constructor | exact Hsteps]).
    assert (calls_match_flags s) as [Hsync _].
    { eapply calls_match_flags_steps; [constructor| |exact Hno|exact Hsteps].
      split; [|intros _]; intros n; by destruct n. }
    pose proof (count_calls_delete (is_image_call index) _ _ _ Hp) as Hcount.
    simpl in Hcount. rewrite Nat.eqb_refl in Hcount. simpl in Hcount.
    specialize (Hsync index). rewrite image_calls_count in Hsync.
    unfold flagged_loading in Hsync.
    destruct (shots s !! index) as [sh|] eqn:Hsh; [|simpl in Hsync; lia].
    assert (isLoadingImage sh = Some true) as Hflag.
    { destruct (isLoadingImage sh) as [[|]|]; simpl in Hsync; [reflexivity | lia | lia]. }
    assert (imageUrl sh = None) as Himg.
    { pose proof (loading_flag_without_image s Hreach) as Hall.
      rewrite Forall_lookup in Hall. by apply (Hall index sh Hsh). }
    destruct (Hfail s k index prompt sh Hp Hsh) as [Hstep Hslot].
    exists sh. eexists. exists (set_isLoadingImage false sh).
    split; [first [exact Hsh | reflexivity]|]. split; [exact Hflag|]. split; [exact Himg|].
    split; [exact Hstep|]. split; [exact Hslot|]. split; [reflexivity|].
    split; [exact Himg|]. split.
    + unfold render_shot. simpl. by rewrite Himg.
    + by split.
Qed.

Lemma image_failure_clears_flag_only_witness :
  (∃ s' sh',
     step after_restart (Settled 3 Rejected) = Some s'
     ∧ shots s' !! 0 = Some sh'
     ∧ isLoadingImage sh' = Some false
     ∧ outputs s' = outputs after_restart ++ [ConsoleError "Image gen error"]
     ∧ pending s' = delete 3 (pending after_restart))
  ∧ (∃ sh s' sh',
       shots showing_results !! 0 = Some sh
       ∧ isLoadingImage sh = Some true ∧ imageUrl sh = None
       ∧ step showing_results (Settled 0 Rejected) = Some s'
       ∧ shots s' !! 0 = Some sh'
       ∧ isLoadingImage sh' = Some false ∧ imageUrl sh' = None
       ∧ render_shot sh' = ShotPlaceholder false "Pendiente"
       ∧ outputs s' = outputs showing_results ++ [ConsoleError "Image gen error"]
       ∧ pending s' = delete 0 (pending showing_results)).
Proof.
  destruct image_failure_clears_flag_only as [Hany Hfresh]. split.
  - destruct (Hany after_restart 3 0
                (image_prompt (shot_of_json (mkJsonShot "EXT. ROOFTOP - NIGHT"
                   "Two figures face each other" "Low angle"
                   "two silhouettes on a rooftop against city lights")))
                (mkShot "EXT. ROOFTOP - NIGHT" "Two figures face each other" "Low angle"
                        "two silhouettes on a rooftop against city lights" None (Some true))
                eq_refl eq_refl)
      as (s' & sh' & Hstep & Hslot & _ & Hflag & _ & Hout & Hgone).
    exists s', sh'. by repeat split.
  - apply (Hfresh false [ClickAnalyze; Settled 0 (TextReply (Parsed sample_data))]
             showing_results 0 0
             (image_prompt (shot_of_json (mkJsonShot "INT. COFFEE SHOP - DAY"
                "Jamie stares at his coffee" "Close-up"
                "a cold cup of coffee by a rain-streaked window")))).
    + reflexivity.
    + intros Hin. repeat (apply elem_of_cons in Hin as [[=]|Hin]).
      by apply elem_of_nil in Hin.
    + reflexivity.
Defined.

(** ** A video call that succeeds *)

Lemma steps_app evs1 evs2 : ∀ s,
  steps s (evs1 ++ evs2) = s1 ← steps s evs1; steps s1 evs2.
Proof.
  induction evs1 as [|ev evs1 IH]; intros s; [reflexivity|].
  simpl. destruct (step s ev) as [s1|]; [apply IH | reflexivity].
Qed.

Lemma lookup_last_call (ps : list Pending) p : (ps ++ [p]) !! length ps = Some p.
Proof. rewrite lookup_app_r by lia. by rewrite Nat.sub_diag. Qed.

Lemma delete_last_call (ps : list Pending) p : delete (length ps) (ps ++ [p]) = ps.
Proof. rewrite delete_middle. apply app_nil_r. Qed.

Lemma video_call_waits s ps stage r stage' :
  pending s = ps ++ [AwaitVideo stage] →
  generateVideo_resume stage r = Some [Suspend (AwaitVideo stage')] →
  step s (Settled (length ps) r) = Some (with_pending (ps ++ [AwaitVideo stage']) s).
Proof.
  intros Hp Hr.
  erewrite step_settled; [|rewrite Hp; apply lookup_last_call|exact Hr].
  simpl. unfold with_pending. by rewrite Hp, delete_last_call.
Qed.

Lemma video_call_waits_again s ps stage r stage' :
  generateVideo_resume stage r = Some [Suspend (AwaitVideo stage')] →
  step (with_pending (ps ++ [AwaitVideo stage]) s) (Settled (length ps) r)
  = Some (with_pending (ps ++ [AwaitVideo stage']) s).
Proof.
  intros Hr.
  by rewrite (video_call_waits (with_pending (ps ++ [AwaitVideo stage]) s)
                ps stage r stage' eq_refl Hr).
Qed.

Lemma video_call_ends s ps stage r effs :
  generateVideo_resume stage r = Some effs →
  step (with_pending (ps ++ [AwaitVideo stage]) s) (Settled (length ps) r)
  = Some (run effs (with_pending ps s)).
Proof.
  intros Hr. erewrite step_settled; [|apply lookup_last_call|exact Hr].
  unfold settle, with_pending. simpl. by rewrite delete_last_call.
Qed.

Lemma poll_rounds_wait ops : ∀ s ps op0,
  pending s = ps ++ [AwaitVideo (AwaitTimer 5000 op0)] →
  Forall not_done ops →
  steps s (poll_rounds (length ps) ops)
  = Some (with_pending (ps ++ [AwaitVideo (AwaitTimer 5000 (List.last ops op0))]) s).
Proof.
  induction ops as [|op ops IH]; intros s ps op0 Hp Hops.
  - simpl. unfold with_pending. rewrite <- Hp. by destruct s.
  - apply Forall_cons in Hops as [Hop Hops]. cbn [poll_rounds steps].
    rewrite (video_call_waits s ps _ TimerFired (AwaitPoll op0) Hp eq_refl).
    cbn [mbind option_bind].
    rewrite (video_call_waits_again s ps _ (OperationReply op) (AwaitTimer 5000 op)).
    2: { simpl. unfold poll. unfold not_done in Hop. by rewrite Hop. }
    cbn [mbind option_bind].
    rewrite (IH (with_pending (ps ++ [AwaitVideo (AwaitTimer 5000 op)]) s) ps op
               eq_refl Hops).
    by rewrite last_cons_default.
Qed.

(** X13.  A video call waiting in the polling loop, at the last position
    of the calls in flight, is carried to its end by any number of status
    replies that are not done followed by one that is done and names a
    video: the video is fetched, its object URL is stored, the loading
    flag is cleared, the call is gone, nothing is written to the console
    and the rest of the state is as before.  The video slot shows the
    video. *)
Theorem polled_video_is_delivered s ps op0 ops op uri objectUrl :
  pending s = ps ++ [AwaitVideo (AwaitTimer 5000 op0)] →
  Forall not_done ops →
  truthy_bool (op_done op) = true →
  op_uri op = Some uri → uri ≠ "" → objectUrl ≠ "" →
  ∃ s',
    steps s (poll_rounds (length ps) ops ++ video_delivery (length ps) op objectUrl)
    = Some s'
    ∧ s' = mkState (view s) (script s) (shots s) (analysis s) (Some objectUrl) false
                   (processingStep s) (aistudio s) (outputs s) ps
    ∧ render_video s' = VideoElement objectUrl.
Proof.
  intros Hp Hops Hdone Huri Hne Hobj.
  eexists. split; [|split; [reflexivity|]].
  - rewrite steps_app, (poll_rounds_wait ops s ps op0 Hp Hops). cbn [mbind option_bind].
    unfold video_delivery. cbn [steps].
    rewrite (video_call_waits_again s ps (AwaitTimer 5000 (List.last ops op0)) TimerFired
               (AwaitPoll (List.last ops op0)) eq_refl).
    cbn [mbind option_bind].
    rewrite (video_call_waits_again s ps (AwaitPoll (List.last ops op0))
               (OperationReply op) (AwaitFetch uri)).
    2: { simpl. unfold poll. rewrite Hdone, Huri.
         destruct (String.eqb_spec uri ""); [done | reflexivity]. }
    cbn [mbind option_bind].
    rewrite (video_call_waits_again s ps (AwaitFetch uri) FetchReply AwaitBlob eq_refl).
    cbn [mbind option_bind].
    rewrite (video_call_ends s ps AwaitBlob (BlobReply objectUrl) _ eq_refl).
    reflexivity.
  - unfold render_video. simpl.
    destruct (String.eqb_spec objectUrl ""); [done | reflexivity].
Qed.

Lemma polled_video_is_delivered_witness :
  ∃ s',
    steps video_waiting
      (poll_rounds 2 [still_running; still_running]
       ++ video_delivery 2 finished_with_video "blob:first-run")
    = Some s'
    ∧ s' = mkState (view video_waiting) (script video_waiting) (shots video_waiting)
                   (analysis video_waiting) (Some "blob:first-run") false
                   (processingStep video_waiting) (aistudio video_waiting)
                   (outputs video_waiting) (calls_from 0 sample_shots)
    ∧ render_video s' = VideoElement "blob:first-run".
Proof.
  apply (polled_video_is_delivered video_waiting (calls_from 0 sample_shots)
           still_running [still_running; still_running] finished_with_video
           "https://example.com/video?alt=media" "blob:first-run");
    try reflexivity; try discriminate.
  repeat constructor.
Defined.

(** ** A whole run in which every call answers *)

Lemma images_arrive l : ∀ replies finished s rest,
  length replies = length l →
  shots s = finished ++ ((set_isLoadingImage true ∘ shot_of_json) <$> l) →
  pending s = calls_from (length finished) l ++ rest →
  steps s ((λ parts, Settled 0 (ImageReply parts)) <$> replies)
  = Some (mkState (view s) (script s) (finished ++ zip_with finished_shot l replies)
                  (analysis s) (videoUrl s) (isVideoLoading s) (processingStep s)
                  (aistudio s) (outputs s) rest).
Proof.
  induction l as [|j l IH]; intros replies finished s rest Hlen Hshots Hpending.
  - destruct replies; [|discriminate]. destruct s. simpl in *. subst.
    by rewrite !app_nil_r.
  - destruct replies as [|parts replies]; [discriminate|].
    injection Hlen as Hlen. rewrite calls_from_cons in Hpending.
    cbn [fmap list_fmap steps].
    erewrite step_settled; [|by rewrite Hpending|reflexivity].
    cbn [mbind option_bind].
    rewrite (IH replies (finished ++ [finished_shot j parts]) _ rest Hlen).
    + simpl. by rewrite <- app_assoc.
    + simpl. rewrite Hshots. unfold store_image.
      rewrite <- (Nat.add_0_r (length finished)), alter_app_r. simpl.
      by rewrite <- app_assoc.
    + simpl. rewrite Hpending, length_app. simpl. by rewrite Nat.add_1_r.
Qed.

(** X14.  Starting in the input view with no call in flight, a run in
    which every call answers (the text reply carries analysis, casting and
    shots; one image reply per shot; a finished operation that names a
    video) ends in the results view with the analysis stored, every shot
    holding the image of its own reply with the loading flag cleared, the
    video URL stored, nothing in flight and nothing written to the console
    or alerted. *)
Theorem whole_run_completes s data a cs l replies op uri objectUrl :
  view s = input → pending s = [] →
  d_analysis data = Some a → ja_casting a = Some cs → d_shots data = Some l →
  length replies = length l →
  truthy_bool (op_done op) = true → op_uri op = Some uri → uri ≠ "" →
  steps s (whole_run (aistudio s) data replies op objectUrl)
  = Some (mkState results (script s) (zip_with finished_shot l replies)
                  (Some (map_analysis a cs)) (Some objectUrl) false 2 (aistudio s)
                  (outputs s) []).
Proof.
  intros Hv Hp Ha Hc Hl Hlen Hdone Huri Hne.
  unfold whole_run. rewrite steps_app. cbn [steps].
  assert (step s ClickAnalyze = Some (run (processScript (script s)) s)) as ->.
  { unfold step, handler. by rewrite Hv. }
  cbn [mbind option_bind].
  erewrite step_text_success; [|simpl; by rewrite Hp|exact Ha|exact Hc|exact Hl].
  cbn [mbind option_bind]. simpl pending. rewrite Hp. simpl delete. simpl app.
  rewrite steps_app.
  erewrite (images_arrive l replies [] _ [AwaitVideo (first_video_stage (aistudio s) (script s))]
              Hlen); [|reflexivity|reflexivity].
  cbn [mbind option_bind]. simpl.
  assert (poll op = [Suspend (AwaitVideo (AwaitFetch uri))]) as Hpoll.
  { unfold poll. rewrite Hdone, Huri. destruct (String.eqb_spec uri ""); [done | reflexivity]. }
  destruct (aistudio s); simpl; unfold step; simpl; rewrite Hpoll; reflexivity.
Qed.

Lemma whole_run_completes_witness :
  steps (init false)
        (whole_run false sample_data [Some [mkPart (Some ("image/png", "Q09GRkVF"))]; None]
                   finished_with_video "blob:first-run")
  = Some (mkState results DEFAULT_SCRIPT
            (zip_with finished_shot sample_shots
               [Some [mkPart (Some ("image/png", "Q09GRkVF"))]; None])
            (Some (map_analysis sample_analysis sample_castings))
            (Some "blob:first-run") false 2 false [] []).
Proof.
  apply (whole_run_completes (init false) sample_data sample_analysis sample_castings
           sample_shots [Some [mkPart (Some ("image/png", "Q09GRkVF"))]; None]
           finished_with_video "https://example.com/video?alt=media" "blob:first-run");
    try reflexivity. discriminate.
Defined.

(** ** An operation that finishes without a video *)

(** X15.  When the status reply reports the operation done but names no
    video (no URI, or an empty one), generateVideo ends silently: nothing
    is fetched, nothing is written to the console, no alert is raised and
    [videoUrl] is left as it was.  With [videoUrl] null the video slot
    falls back to the caption "Esperando inicio...". *)
Theorem finished_without_video_is_silent s k stage op :
  pending s !! k = Some (AwaitVideo stage) →
  awaits_status stage = true →
  truthy_bool (op_done op) = true →
  truthy_string (op_uri op) = false →
  ∃ s',
    step s (Settled k (OperationReply op)) = Some s'
    ∧ s' = mkState (view s) (script s) (shots s) (analysis s) (videoUrl s) false
                   (processingStep s) (aistudio s) (outputs s) (delete k (pending s))
    ∧ (videoUrl s = None → render_video s' = VideoPlaceholder "Esperando inicio...").
Proof.
  intros Hp Hst Hdone Huri.
  assert (poll op = generateVideo_finally) as Hpoll.
  { destruct (poll_cases op) as [[Hd _]|[(_ & uri & _ & Ht & _)|(_ & _ & ->)]];
      [congruence | congruence | reflexivity]. }
  assert (generateVideo_resume stage (OperationReply op) = Some generateVideo_finally) as Hr.
  { destruct stage; try discriminate Hst; simpl; by rewrite Hpoll. }
  eexists. split; [eapply step_settled; [exact Hp | exact Hr]|].
  split; [reflexivity|]. intros Hnone. unfold render_video. simpl. by rewrite Hnone.
Qed.

Lemma finished_without_video_is_silent_witness :
  ∃ s',
    step showing_results (Settled 2 (OperationReply finished_without_video)) = Some s'
    ∧ s' = mkState (view showing_results) (script showing_results) (shots showing_results)
                   (analysis showing_results) (videoUrl showing_results) false
                   (processingStep showing_results) (aistudio showing_results)
                   (outputs showing_results) (delete 2 (pending showing_results))
    ∧ (videoUrl showing_results = None →
       render_video s' = VideoPlaceholder "Esperando inicio...").
Proof.
  apply (finished_without_video_is_silent showing_results 2
           (AwaitGenerate (video_prompt DEFAULT_SCRIPT)) finished_without_video);
    reflexivity.
Defined.

(** ** The script under analysis *)

Lemma no_text_in_calls_from n l sc : AwaitText sc ∉ calls_from n l.
Proof.
  intros Hin. apply list_elem_of_lookup in Hin as [i Hi].
  unfold calls_from in Hi. rewrite list_lookup_imap in Hi.
  destruct (l !! i); discriminate.
Qed.

Lemma text_in_flight_is_page_script s :
  reachable s → ∀ script0, AwaitText script0 ∈ pending s → script0 = script s.
Proof.
  induction 1 as [has_aistudio|s ev s' Hreach IH Hstep]; intros script0 Hin.
  { by apply elem_of_nil in Hin. }
  assert (∀ x, AwaitText x ∈ pending s → view s = processing) as Hproc.
  { intros x Hx. apply list_elem_of_lookup in Hx as [n Hn].
    by eapply text_pending_processing. }
  assert (∀ n x, AwaitText x ∈ delete n (pending s) → x = script s) as Hdel.
  { intros n x Hx. apply IH. by eapply list_elem_of_delete_inv. }
  revert Hin. step_cases Hstep; intros Hin.
  - apply elem_of_app in Hin as [Hin|Hin].
    + apply Hproc in Hin. congruence.
    + apply list_elem_of_singleton in Hin. congruence.
  - apply Hproc in Hin. congruence.
  - apply Hproc in Hin. congruence.
  - by eapply Hdel.
  - by eapply Hdel.
  - apply elem_of_app in Hin as [Hin|Hin]; [by eapply Hdel|].
    apply elem_of_app in Hin as [Hin|Hin]; [by apply no_text_in_calls_from in Hin|].
    apply list_elem_of_singleton in Hin. discriminate.
  - by eapply Hdel.
  - by eapply Hdel.
  - apply elem_of_app in Hin as [Hin|Hin]; [by eapply Hdel|].
    apply list_elem_of_singleton in Hin. discriminate.
  - by eapply Hdel.
  - by eapply Hdel.
  - by eapply Hdel.
  - apply Hproc in Hin. congruence.
Qed.

(** X16.  The script cannot change under a running analysis: the textarea
    exists in the input view only, so in every reachable state the script
    carried by the text-analysis call in flight is the script of the page;
    and when that call is answered with analysis, casting and shots, the
    video call it starts is given that same script. *)
Theorem analysed_script_is_the_page_script s n script0 :
  reachable s →
  pending s !! n = Some (AwaitText script0) →
  script0 = script s
  ∧ (∀ text, step s (EditScript text) = None)
  ∧ ∀ data a cs l s',
      d_analysis data = Some a → ja_casting a = Some cs → d_shots data = Some l →
      step s (Settled n (TextReply (Parsed data))) = Some s' →
      script s' = script s
      ∧ List.last (pending s') (AwaitText "")
        = AwaitVideo (first_video_stage (aistudio s) (script s)).
Proof.
  intros Hreach Hp.
  assert (script0 = script s) as ->.
  { apply (text_in_flight_is_page_script s Hreach). apply list_elem_of_lookup. eauto. }
  split; [reflexivity|]. split.
  - intros text. unfold step, handler.
    by rewrite (text_pending_processing s n _ Hreach Hp).
  - intros data a cs l s' Ha Hc Hl Hstep.
    rewrite (step_text_success _ _ _ _ _ _ _ Hp Ha Hc Hl) in Hstep.
    injection Hstep as <-. simpl. split; [reflexivity|].
    by rewrite app_assoc, List.last_last.
Qed.

Lemma analysed_script_is_the_page_script_witness :
  DEFAULT_SCRIPT = script awaiting_text
  ∧ (∀ text, step awaiting_text (EditScript text) = None)
  ∧ ∀ data a cs l s',
      d_analysis data = Some a → ja_casting a = Some cs → d_shots data = Some l →
      step awaiting_text (Settled 0 (TextReply (Parsed data))) = Some s' →
      script s' = script awaiting_text
      ∧ List.last (pending s') (AwaitText "")
        = AwaitVideo (first_video_stage (aistudio awaiting_text) (script awaiting_text)).
Proof.
  apply (analysed_script_is_the_page_script awaiting_text 0 DEFAULT_SCRIPT);
    [apply awaiting_text_reachable | reflexivity].
Defined.
